(** * rox: the Collatz explorer (comps/loops.py) and the Fibonacci bench (test.py)

    A shallow embedding of the two Python scripts and the properties their
    specification states about them.

    The scripts are Python 3 (an f-string, the literal [10_000]).  Python
    integers are unbounded, so they are [Z]; [//] is [Z.div], which floors.
    [/] on two integers is true division: its result is a float, an IEEE-754
    binary64 value.  Floats are modelled by the Standard Library's
    [spec_float] with [prec = 53] and [emax = 1024], whose operations round to
    nearest, ties to even, as CPython's do; where CPython raises
    [OverflowError] instead of producing an infinity, the model does too.

    A [while] loop or a recursive call that the source does not bound is
    modelled with a fuel argument; running out of fuel is an outcome of the
    model only ([OutOfFuel]), distinct from the two outcomes Python has (a
    value is returned, an exception is raised).  The interpreter's recursion
    limit, its memory and the wall-clock timing of the scripts are not
    modelled. *)

From Stdlib Require Import ZArith List Bool Lia Floats.SpecFloat.
From Stdlib Require Import String DecimalString.
Import ListNotations.
Local Open Scope Z_scope.

(** ** Outcomes of running Python code *)

Module Py.

Inductive exn : Set :=
| OverflowError
| ZeroDivisionError.

Inductive outcome (A : Type) : Type :=
| Return (a : A)
| Raise (e : exn)
| OutOfFuel.

Arguments Return {A} a.
Arguments Raise {A} e.
Arguments OutOfFuel {A}.

Definition bind {A B : Type} (m : outcome A) (k : A -> outcome B) : outcome B :=
  match m with
  | Return a => k a
  | Raise e => Raise e
  | OutOfFuel => OutOfFuel
  end.

(** ** Floats: IEEE-754 binary64 *)

Definition prec : Z := 53.
Definition emax : Z := 1024.

Definition float : Set := spec_float.

(** A float that is infinite where Python raises [OverflowError] instead. *)
Definition finite_or_overflow (x : float) : outcome float :=
  match x with
  | S754_infinity _ => Raise OverflowError
  | _ => Return x
  end.

(** [float(n)], the conversion applied to an [int] operand of a mixed
    arithmetic operation: the nearest float, [OverflowError] when that is
    beyond the largest finite float. *)
Definition float_of_int (n : Z) : outcome float :=
  finite_or_overflow (binary_normalize prec emax n 0 false).

(** An integer as an exact (unrounded) operand of the division below. *)
Definition exact_operand (n : Z) : float :=
  match n with
  | Z0 => S754_zero false
  | Zpos p => S754_finite false p 0
  | Zneg p => S754_finite true p 0
  end.

(** [a / b] on two [int]s (true division): the exact quotient rounded once
    to the nearest float; [ZeroDivisionError] for [b = 0], [OverflowError]
    when the quotient is too large for a float. *)
Definition int_truediv (a b : Z) : outcome float :=
  if b =? 0 then Raise ZeroDivisionError
  else if a =? 0 then Return (S754_zero (b <? 0))
  else finite_or_overflow (SFdiv prec emax (exact_operand a) (exact_operand b)).

(** [x * y] and [x - y] on floats: IEEE operations, which never raise. *)
Definition float_mul (x y : float) : float := SFmul prec emax x y.
Definition float_sub (x y : float) : float := SFsub prec emax x y.

(** [x * n] with [n] an [int]: [n] is converted first. *)
Definition float_mul_int (x : float) (n : Z) : outcome float :=
  bind (float_of_int n) (fun y => Return (float_mul x y)).

(** [n - x] with [n] an [int]: [n] is converted first. *)
Definition int_sub_float (n : Z) (x : float) : outcome float :=
  bind (float_of_int n) (fun y => Return (float_sub y x)).

(** [x == n] with [n] an [int]: an exact comparison of the two values, with
    no conversion (so no exception); false on infinities and NaN. *)
Definition float_eq_int (x : float) (n : Z) : bool :=
  match x with
  | S754_zero _ => n =? 0
  | S754_finite s m e =>
      let v := if s then Zneg m else Zpos m in
      if 0 <=? e then v * 2 ^ e =? n else v =? n * 2 ^ (- e)
  | S754_infinity _ | S754_nan => false
  end.

End Py.

Import Py.

Notation "x <- m ;; k" := (bind m (fun x => k))
  (at level 61, m at next level, right associativity).

(** ** comps/loops.py *)

Module Loops.

(** [def is_even(n): return n - (n/2) *2 == 0] *)
Definition is_even (n : Z) : outcome bool :=
  q <- int_truediv n 2 ;;
  p <- float_mul_int q 2 ;;
  d <- int_sub_float n p ;;
  Return (float_eq_int d 0).

(** The [while n != 1] loop of [collatz_length], one unit of fuel per test of
    the loop condition. *)
Fixpoint collatz_loop (fuel : nat) (n length : Z) : outcome Z :=
  match fuel with
  | O => OutOfFuel
  | S fuel' =>
      if negb (n =? 1) then
        even <- is_even n ;;
        let n := if even then n / 2 else 3 * n + 1 in
        let length := length + 1 in
        collatz_loop fuel' n length
      else Return length
  end.

Definition collatz_length (fuel : nat) (n : Z) : outcome Z :=
  let length := 1 in
  collatz_loop fuel n length.

(** The [while i <= limit] loop of [find_longest_collatz]; each call of
    [collatz_length] gets the whole of [cfuel]. *)
Fixpoint find_longest_loop (fuel cfuel : nat) (limit max_length number i : Z)
  : outcome (Z * Z) :=
  match fuel with
  | O => OutOfFuel
  | S fuel' =>
      if i <=? limit then
        length <- collatz_length cfuel i ;;
        let '(max_length, number) :=
          if length >? max_length then (length, i) else (max_length, number) in
        let i := i + 1 in
        find_longest_loop fuel' cfuel limit max_length number i
      else Return (number, max_length)
  end.

Definition find_longest_collatz (fuel : nat) (limit : Z) : outcome (Z * Z) :=
  let max_length := 0 in
  let number := 1 in
  let i := 1 in
  find_longest_loop fuel fuel limit max_length number i.

(** The script's own run: [limit = 10_000], and the pair it prints. *)
Definition limit : Z := 10000.

Definition driver (fuel : nat) : outcome (Z * Z) :=
  find_longest_collatz fuel limit.

End Loops.

(** ** test.py *)

Module Test.

(** [def fibo(n)]: one unit of fuel per nested call. *)
Fixpoint fibo (fuel : nat) (n : Z) : outcome Z :=
  match fuel with
  | O => OutOfFuel
  | S fuel' =>
      if n <=? 1 then Return n
      else
        a <- fibo fuel' (n - 2) ;;
        b <- fibo fuel' (n - 1) ;;
        Return (a + b)
  end.

(** [range(k)] *)
Definition range (k : nat) : list Z := map Z.of_nat (seq 0 k).

(** [for i in range(20): print(fibo(i))]: the values printed, in order. *)
Fixpoint print_each (fuel : nat) (l : list Z) : outcome (list Z) :=
  match l with
  | [] => Return []
  | i :: l' =>
      v <- fibo fuel i ;;
      out <- print_each fuel l' ;;
      Return (v :: out)
  end.

Definition driver (fuel : nat) : outcome (list Z) :=
  print_each fuel (range 20).

End Test.

(** ** Reference definitions *)

Module Reference.

(** Follows the spec's words: the direct modulus test [n % 2 == 0]. *)
Definition is_even (n : Z) : bool := n mod 2 =? 0.

(** Follows the spec's words: even -> n div 2, odd -> 3n + 1, one count per
    transition, stop when n reaches 1. *)
Fixpoint sequence_loop (fuel : nat) (n length : Z) : outcome Z :=
  match fuel with
  | O => OutOfFuel
  | S fuel' =>
      if n =? 1 then Return length
      else sequence_loop fuel' (if is_even n then n / 2 else 3 * n + 1) (length + 1)
  end.

(** Follows the spec's words: the count starts at 1 for the initial value. *)
Definition sequence_length (fuel : nat) (n : Z) : outcome Z :=
  sequence_loop fuel n 1.

(** Follows the spec's words: the scan of 1..limit with the reference length,
    the best record replaced on a strictly greater length only. *)
Fixpoint find_longest_loop (fuel cfuel : nat) (limit max_length number i : Z)
  : outcome (Z * Z) :=
  match fuel with
  | O => OutOfFuel
  | S fuel' =>
      if i <=? limit then
        length <- sequence_length cfuel i ;;
        if length >? max_length
        then find_longest_loop fuel' cfuel limit length i (i + 1)
        else find_longest_loop fuel' cfuel limit max_length number (i + 1)
      else Return (number, max_length)
  end.

Definition find_longest (fuel : nat) (limit : Z) : outcome (Z * Z) :=
  find_longest_loop fuel fuel limit 0 1 1.

(** Follows the spec's words: fibo(0)=0, fibo(1)=1, fibo(n)=fibo(n-1)+fibo(n-2). *)
Fixpoint fibo (n : nat) : Z :=
  match n with
  | O => 0
  | S n' =>
      match n' with
      | O => 1
      | S n'' => fibo n' + fibo n''
      end
  end.

End Reference.

(** ** Definitions used in the statements and proofs *)

Import Loops Test.

(** [collatz_length(n)] returns [l]. *)
Definition collatz_length_returns (n l : Z) : Prop :=
  exists fuel, collatz_length fuel n = Return l.

(** [find_longest_collatz(limit)] returns the pair [r]. *)
Definition find_longest_collatz_returns (limit : Z) (r : Z * Z) : Prop :=
  exists fuel, find_longest_collatz fuel limit = Return r.

(** The 53-bit mantissa of the float that holds [p] exactly. *)
Definition mantissa (p : positive) : positive :=
  Z.to_pos (Zpos p * 2 ^ (52 - Z.log2 (Zpos p))).

(** What holds of the best record when the scan is about to look at [i]:
    every earlier [j] has a length, none above [max_length]; and either
    nothing was scanned yet, or [number] is the first [j] of that length. *)
Definition scanned (cfuel : nat) (i max_length number : Z) : Prop :=
  (forall j, 1 <= j < i ->
     exists l, collatz_length cfuel j = Return l /\ l <= max_length)
  /\ ((i = 1 /\ max_length = 0 /\ number = 1)
      \/ (1 <= number < i
          /\ collatz_length cfuel number = Return max_length
          /\ forall j l, 1 <= j < number ->
               collatz_length cfuel j = Return l -> l < max_length)).

(** A shift record with nothing shifted out yet. *)
Local Abbreviation exact_record m := {| shr_m := m; shr_r := false; shr_s := false |}.

(** The least integer that [float()] rejects: half an ulp below 2^1024. *)
Definition float_range : Z := 2 ^ 1024 - 2 ^ 970.

(** The two stages of [binary_round_aux] after the first shift: rounding to
    nearest even, then the shift that absorbs a carry; and the range check. *)
Definition round_stage2 (mrs : shr_record) (e : Z) : Z * Z :=
  let '(mrs', e') :=
    shr_fexp prec emax
      (round_nearest_even (shr_m mrs) (loc_of_shr_record mrs)) e loc_Exact in
  (shr_m mrs', e').

Definition checked (s : bool) (r : Z * Z) : float :=
  match fst r with
  | Z0 => S754_zero s
  | Zpos m =>
      if snd r <=? emax - prec then S754_finite s m (snd r) else S754_infinity s
  | Zneg _ => S754_nan
  end.

(** [n] shifted down to 53 bits, with the round and sticky bits of what was
    shifted out. *)
Definition shifted (n : Z) : shr_record :=
  Nat.iter (Z.to_nat (Z.log2 n - 52)) shr_1 (exact_record n).

(** ** Definitions for the further properties *)

(** The outcome of the same operation on the opposite operand. *)
Definition negate (r : outcome float) : outcome float :=
  match r with
  | Return x => Return (SFopp x)
  | Raise e => Raise e
  | OutOfFuel => OutOfFuel
  end.

(** [fibo] with a counter threaded through it: [calls] is the number of
    calls of [fibo] made so far, and every call adds one on entry.  The
    value is computed as in [fibo]. *)
Fixpoint fibo_counting (fuel : nat) (n calls : Z) : outcome (Z * Z) :=
  match fuel with
  | O => OutOfFuel
  | S fuel' =>
      let calls := calls + 1 in
      if n <=? 1 then Return (n, calls)
      else
        r2 <- fibo_counting fuel' (n - 2) calls ;;
        r1 <- fibo_counting fuel' (n - 1) (snd r2) ;;
        Return (fst r2 + fst r1, snd r1)
  end.

(** The scripts' top-level code: what each prints, line by line.  The
    elapsed time a script prints depends on the clock; its text is the
    argument [elapsed]. *)
Module Output.

Local Open Scope string_scope.

(** [str(n)] on an [int]: its decimal digits, after a minus sign when
    negative; this is how [print] and an f-string show an [int]. *)
Definition str (n : Z) : string := NilZero.string_of_int (Z.to_int n).

(** The f-string of comps/loops.py. *)
Definition report (limit num length : Z) (elapsed : string) : string :=
  "Longest Collatz sequence under " ++ str limit ++ ": " ++ str num
  ++ " (length: " ++ str length ++ ") in " ++ elapsed ++ " sec".

(** comps/loops.py, from [limit = 10_000] to its [print]. *)
Definition loops_script (fuel : nat) (elapsed : string) : outcome (list string) :=
  r <- find_longest_collatz fuel limit ;;
  let '(num, length) := r in
  Return [report limit num length elapsed].

(** test.py: the loop of [print(fibo(i))], then the two last [print]s. *)
Definition test_script (fuel : nat) (elapsed : string) : outcome (list string) :=
  values <- print_each fuel (range 20) ;;
  Return (app (map str values) ["loop took"; elapsed]).

End Output.

(** ** Facts about binary64 rounding *)

Section Binary64.

Lemma log2_half (n : Z) : 2 <= n -> Z.log2 (n / 2) = Z.log2 n - 1.
Proof.
  intros Hn. change 2 with (2 ^ 1) at 1.
  rewrite <- Z.shiftr_div_pow2, Z.log2_shiftr by lia.
  assert (1 <= Z.log2 n) by (apply Z.log2_le_pow2; simpl; lia).
  lia.
Qed.

Lemma digits2_pos_size (p : positive) : digits2_pos p = Pos.size p.
Proof. induction p; simpl; congruence. Qed.

Lemma size_log2 (p : positive) : Zpos (Pos.size p) = Z.log2 (Zpos p) + 1.
Proof. destruct p; simpl; lia. Qed.

Lemma Zdigits2_log2 (z : Z) : 0 < z -> Zdigits2 z = Z.log2 z + 1.
Proof.
  destruct z as [|p|p]; try lia; intros _.
  unfold Zdigits2. now rewrite digits2_pos_size, size_log2.
Qed.

Lemma fexp_normal (x : Z) : -1021 <= x -> fexp prec emax x = x - 53.
Proof. unfold fexp, SpecFloat.emin, prec, emax. lia. Qed.

Lemma iter_pos_nat {A : Type} (f : A -> A) (n : positive) (x : A) :
  iter_pos f n x = Nat.iter (Pos.to_nat n) f x.
Proof.
  revert x; induction n as [n IH|n IH|]; intros x; simpl iter_pos.
  - rewrite !IH, Pos2Nat.inj_xI.
    replace (S (2 * Pos.to_nat n)) with (Pos.to_nat n + (Pos.to_nat n + 1))%nat by lia.
    rewrite !Nat.iter_add. reflexivity.
  - rewrite !IH, Pos2Nat.inj_xO.
    replace (2 * Pos.to_nat n)%nat with (Pos.to_nat n + Pos.to_nat n)%nat by lia.
    now rewrite Nat.iter_add.
  - reflexivity.
Qed.

Lemma shr_1_exact_double (z : Z) :
  0 < z -> shr_1 (exact_record (2 * z)) = exact_record z.
Proof. destruct z; try lia; reflexivity. Qed.

Lemma iter_shr_1_exact (k : nat) (z : Z) :
  0 < z -> Nat.iter k shr_1 (exact_record (z * 2 ^ Z.of_nat k)) = exact_record z.
Proof.
  revert z; induction k as [|k IH]; intros z Hz.
  - simpl. now rewrite Z.mul_1_r.
  - rewrite Nat.iter_succ_r, Nat2Z.inj_succ, Z.pow_succ_r by lia.
    replace (z * (2 * 2 ^ Z.of_nat k)) with (2 * (z * 2 ^ Z.of_nat k)) by lia.
    rewrite shr_1_exact_double by nia. now apply IH.
Qed.

Lemma shr_exact (z e k : Z) :
  0 < z -> 0 <= k -> shr (exact_record (z * 2 ^ k)) e k = (exact_record z, e + k).
Proof.
  intros Hz Hk. destruct k as [|p|p]; try lia.
  - simpl. now rewrite Z.mul_1_r, Z.add_0_r.
  - unfold shr. rewrite iter_pos_nat.
    rewrite <- (positive_nat_Z p) at 1. now rewrite iter_shr_1_exact.
Qed.

(** A 53-bit mantissa followed by [k] zero bits rounds to itself. *)
Lemma binary_round_aux_exact (s : bool) (m : positive) (e k : Z) :
  Z.log2 (Zpos m) = 52 -> 0 <= k -> -1074 <= e + k <= 971 ->
  binary_round_aux prec emax s (Zpos m * 2 ^ k) e loc_Exact
  = S754_finite s m (e + k).
Proof.
  intros Hm Hk He.
  assert (Hpos : 0 < Zpos m * 2 ^ k) by (apply Z.mul_pos_pos; [lia | now apply Z.pow_pos_nonneg]).
  unfold binary_round_aux, shr_fexp.
  rewrite Zdigits2_log2, Z.log2_mul_pow2, Hm by lia.
  rewrite fexp_normal by lia.
  replace (k + 52 + 1 + e - 53 - e) with k by lia.
  cbn [shr_record_of_loc]. rewrite shr_exact by lia.
  cbn [shr_m loc_of_shr_record round_nearest_even].
  rewrite Zdigits2_log2, Hm, fexp_normal by lia.
  replace (52 + 1 + (e + k) - 53 - (e + k)) with 0 by lia.
  cbn [shr_record_of_loc shr shr_m].
  replace (e + k <=? emax - prec) with true; [reflexivity|].
  symmetry; apply Z.leb_le; unfold emax, prec; lia.
Qed.

Lemma pos_iter_xO (p k : positive) :
  Zpos (Pos.iter xO p k) = Zpos p * 2 ^ Zpos k.
Proof.
  induction k as [|k IH] using Pos.peano_ind.
  - simpl. lia.
  - rewrite Pos.iter_succ, Pos2Z.inj_succ, Z.pow_succ_r by lia.
    rewrite Pos2Z.inj_xO, IH. lia.
Qed.

Lemma mantissa_spec (p : positive) :
  Z.log2 (Zpos p) <= 52 ->
  Zpos (mantissa p) = Zpos p * 2 ^ (52 - Z.log2 (Zpos p))
  /\ Z.log2 (Zpos (mantissa p)) = 52.
Proof.
  intros Hp. unfold mantissa.
  assert (H : 0 < Zpos p * 2 ^ (52 - Z.log2 (Zpos p)))
    by (apply Z.mul_pos_pos; [lia | apply Z.pow_pos_nonneg; lia]).
  rewrite Z2Pos.id by exact H. split; [reflexivity|].
  rewrite Z.log2_mul_pow2 by lia. lia.
Qed.

(** [float(n)] for [n] of at most 53 bits is exact. *)
Lemma float_of_int_small (p : positive) :
  Z.log2 (Zpos p) <= 52 ->
  float_of_int (Zpos p)
  = Return (S754_finite false (mantissa p) (Z.log2 (Zpos p) - 52)).
Proof.
  intros Hp. destruct (mantissa_spec p Hp) as [HM HlM].
  pose proof (Z.log2_nonneg (Zpos p)) as Hl.
  unfold float_of_int, binary_normalize, binary_round.
  rewrite digits2_pos_size, size_log2. rewrite fexp_normal by lia.
  unfold shl_align.
  destruct (Z.log2 (Zpos p) + 1 + 0 - 53 - 0) as [|k|k] eqn:E; try lia.
  - replace (Zpos p) with (Zpos (mantissa p) * 2 ^ 0) at 1
      by (rewrite HM; replace (52 - Z.log2 (Zpos p)) with 0 by lia; lia).
    rewrite binary_round_aux_exact by lia.
    cbn [finite_or_overflow]. do 2 f_equal. lia.
  - replace (Zpos (Pos.iter xO p k)) with (Zpos (mantissa p) * 2 ^ 0)
      by (rewrite HM, pos_iter_xO; replace (Z.pos k) with (52 - Z.log2 (Zpos p)) by lia; lia).
    rewrite binary_round_aux_exact by lia.
    cbn [finite_or_overflow]. do 2 f_equal. lia.
Qed.

(** [n / 2] for such [n] is exact too: the same mantissa, the exponent one
    lower. *)
Lemma int_truediv_2_small (p : positive) :
  Z.log2 (Zpos p) <= 52 ->
  int_truediv (Zpos p) 2
  = Return (S754_finite false (mantissa p) (Z.log2 (Zpos p) - 53)).
Proof.
  intros Hp. destruct (mantissa_spec p Hp) as [HM HlM].
  pose proof (Z.log2_nonneg (Zpos p)) as Hl.
  unfold int_truediv.
  change (2 =? 0) with false. change (Zpos p =? 0) with false.
  cbn [exact_operand SFdiv SFdiv_core_binary xorb].
  unfold SFdiv_core_binary.
  rewrite (Zdigits2_log2 (Zpos p)) by lia.
  change (Zdigits2 2) with 2.
  rewrite fexp_normal by lia.
  rewrite Z.min_l by lia.
  destruct (0 - 0 - (Z.log2 (Zpos p) + 1 + 0 - (2 + 0) - 53)) as [|s|s] eqn:E; try lia.
  rewrite Z.shiftl_mul_pow2 by lia.
  assert (Hq : Zpos p * 2 ^ Zpos s = 2 * (Zpos (mantissa p) * 2 ^ 1)).
  { rewrite HM. replace (Zpos s) with ((52 - Z.log2 (Zpos p)) + 1 + 1) by lia.
    rewrite !Z.pow_add_r by lia. lia. }
  rewrite Hq.
  pose proof (Z.div_eucl_eq (2 * (Zpos (mantissa p) * 2 ^ 1)) 2 ltac:(lia)) as Hd.
  pose proof (Z.mod_pos_bound (2 * (Zpos (mantissa p) * 2 ^ 1)) 2 ltac:(lia)) as Hb.
  unfold Z.modulo in Hb.
  destruct (Z.div_eucl (2 * (Zpos (mantissa p) * 2 ^ 1)) 2) as [q r].
  assert (r = 0) by lia. assert (q = Zpos (mantissa p) * 2 ^ 1) by lia. subst q r.
  change (new_location 2 0) with loc_Exact.
  rewrite binary_round_aux_exact by lia.
  cbn [finite_or_overflow]. do 2 f_equal. lia.
Qed.

Lemma float_of_int_2 :
  float_of_int 2 = Return (S754_finite false 4503599627370496 (-51)).
Proof. reflexivity. Qed.

Lemma float_mul_2 (m : positive) (e : Z) :
  Z.log2 (Zpos m) = 52 -> -1074 <= e + 1 <= 971 ->
  float_mul (S754_finite false m e) (S754_finite false 4503599627370496 (-51))
  = S754_finite false m (e + 1).
Proof.
  intros Hm He. unfold float_mul, SFmul.
  rewrite Pos2Z.inj_mul. change (Zpos 4503599627370496) with (2 ^ 52).
  rewrite binary_round_aux_exact by lia.
  f_equal. lia.
Qed.

Lemma float_sub_diag (s : bool) (m : positive) (e : Z) :
  float_sub (S754_finite s m e) (S754_finite s m e) = S754_zero false.
Proof.
  unfold float_sub, SFsub, shl_align.
  rewrite Z.min_id, !Z.sub_diag. reflexivity.
Qed.

(** On every positive integer that a float holds exactly, the test of
    [is_even] succeeds: [n/2] is not truncated, so [(n/2)*2] is [n] again. *)
Lemma is_even_small (n : Z) : 1 <= n < 2 ^ 53 -> is_even n = Return true.
Proof.
  intros Hn. destruct n as [|p|p]; try lia.
  assert (Hp : Z.log2 (Zpos p) <= 52)
    by (enough (Z.log2 (Zpos p) < 53) by lia; apply Z.log2_lt_pow2; lia).
  destruct (mantissa_spec p Hp) as [_ HlM].
  pose proof (Z.log2_nonneg (Zpos p)) as Hl.
  unfold is_even, float_mul_int, int_sub_float.
  rewrite int_truediv_2_small, float_of_int_2, float_of_int_small by assumption.
  cbn [bind]. rewrite float_mul_2 by lia.
  replace (Z.log2 (Zpos p) - 53 + 1) with (Z.log2 (Zpos p) - 52) by lia.
  now rewrite float_sub_diag.
Qed.

(** *** Integers beyond 53 bits *)

(** [binary_round_aux] is a first shift to 53 bits, then [round_stage2], then
    the range check. *)
Lemma binary_round_aux_stages (s : bool) (m e : Z) (l : location) :
  binary_round_aux prec emax s m e l
  = checked s (round_stage2 (fst (shr_fexp prec emax m e l))
                            (snd (shr_fexp prec emax m e l))).
Proof.
  unfold binary_round_aux, round_stage2, checked.
  destruct (shr_fexp prec emax m e l) as [mrs' e']. cbn [fst snd].
  destruct (shr_fexp prec emax _ e' loc_Exact) as [mrs'' e'']. reflexivity.
Qed.

Lemma shr_nat (r : shr_record) (e n : Z) :
  0 <= n -> shr r e n = (Nat.iter (Z.to_nat n) shr_1 r, e + n).
Proof.
  intros Hn. destruct n as [|p|p]; try lia.
  - simpl. now rewrite Z.add_0_r.
  - unfold shr. now rewrite iter_pos_nat, Z2Nat.inj_pos.
Qed.

(** Away from the subnormals the first shift leaves 53 bits, whatever the
    exponent. *)
Lemma shr_fexp_normal (m e : Z) (l : location) :
  0 < m -> -1021 <= Z.log2 m + 1 + e ->
  shr_fexp prec emax m e l = shr (shr_record_of_loc m l) e (Z.log2 m - 52).
Proof.
  intros Hm He. unfold shr_fexp.
  rewrite Zdigits2_log2, fexp_normal by lia. f_equal. lia.
Qed.

Lemma shr_1_m (r : shr_record) : 0 <= shr_m r -> shr_m (shr_1 r) = shr_m r / 2.
Proof.
  destruct r as [m b s]. cbn [shr_m]. intros Hm.
  destruct m as [|[p|p|]|p]; try lia; cbn [shr_1 shr_m];
    rewrite <- ?Z.div2_div; reflexivity.
Qed.

Lemma shr_1_r (r : shr_record) : 0 <= shr_m r -> shr_r (shr_1 r) = Z.odd (shr_m r).
Proof.
  destruct r as [m b s]. cbn [shr_m]. intros Hm.
  destruct m as [|[p|p|]|p]; try lia; reflexivity.
Qed.

Lemma iter_shr_1_m (k : nat) (r : shr_record) :
  0 <= shr_m r -> shr_m (Nat.iter k shr_1 r) = shr_m r / 2 ^ Z.of_nat k.
Proof.
  intros Hm. induction k as [|k IH].
  - simpl. now rewrite Z.div_1_r.
  - change (Nat.iter (S k) shr_1 r) with (shr_1 (Nat.iter k shr_1 r)).
    rewrite shr_1_m, IH.
    + rewrite Z.div_div, Nat2Z.inj_succ, Z.pow_succ_r by lia. f_equal. lia.
    + rewrite IH. apply Z.div_pos; lia.
Qed.

Lemma iter_shr_1_r (k : nat) (r : shr_record) :
  0 <= shr_m r ->
  shr_r (Nat.iter (S k) shr_1 r) = Z.odd (shr_m r / 2 ^ Z.of_nat k).
Proof.
  intros Hm.
  change (Nat.iter (S k) shr_1 r) with (shr_1 (Nat.iter k shr_1 r)).
  rewrite shr_1_r; rewrite iter_shr_1_m by exact Hm; [reflexivity|].
  apply Z.div_pos; lia.
Qed.

Lemma round_nearest_even_bounds (m : Z) (l : location) :
  m <= round_nearest_even m l <= m + 1.
Proof. destruct l as [|[| |]]; cbn [round_nearest_even]; try destruct (Z.even m); lia. Qed.

Lemma round_nearest_even_down (mrs : shr_record) :
  shr_r mrs = false ->
  round_nearest_even (shr_m mrs) (loc_of_shr_record mrs) = shr_m mrs.
Proof. destruct mrs as [m r [|]]; cbn [shr_r]; intros ->; reflexivity. Qed.

Lemma round_nearest_even_up (mrs : shr_record) :
  shr_r mrs = true -> Z.odd (shr_m mrs) = true ->
  round_nearest_even (shr_m mrs) (loc_of_shr_record mrs) = shr_m mrs + 1.
Proof.
  destruct mrs as [m r [|]]; cbn [shr_r shr_m]; intros -> Hodd;
    cbn [loc_of_shr_record round_nearest_even]; [reflexivity|].
  now rewrite <- Z.negb_odd, Hodd.
Qed.

Lemma log2_52 (m : Z) : 2 ^ 52 <= m < 2 ^ 53 -> Z.log2 m = 52.
Proof. intros Hm. apply Z.log2_unique; [lia | exact Hm]. Qed.

(** The second stage on a 53-bit mantissa: a carry out of the rounding
    costs one more shift. *)
Lemma round_stage2_normal (mrs : shr_record) (e : Z) :
  2 ^ 52 <= shr_m mrs < 2 ^ 53 -> -1074 <= e ->
  round_stage2 mrs e
  = if round_nearest_even (shr_m mrs) (loc_of_shr_record mrs) <? 2 ^ 53
    then (round_nearest_even (shr_m mrs) (loc_of_shr_record mrs), e)
    else (2 ^ 52, e + 1).
Proof.
  intros Hm He. unfold round_stage2.
  pose proof (round_nearest_even_bounds (shr_m mrs) (loc_of_shr_record mrs)) as Hb.
  set (m1 := round_nearest_even (shr_m mrs) (loc_of_shr_record mrs)) in *.
  destruct (Z.ltb_spec m1 (2 ^ 53)) as [Hlt|Hge].
  - assert (Hl : Z.log2 m1 = 52) by (apply log2_52; lia).
    rewrite shr_fexp_normal by lia. rewrite Hl. reflexivity.
  - assert (Hm1 : m1 = 2 ^ 53) by lia.
    rewrite Hm1. rewrite shr_fexp_normal by (change (Z.log2 (2 ^ 53)) with 53; lia).
    reflexivity.
Qed.

Lemma log2_large (n : Z) : 2 ^ 53 <= n -> 53 <= Z.log2 n.
Proof. intros Hn. apply Z.log2_le_pow2; lia. Qed.

(** [float(n)] for [n] of 54 bits or more: [n] shifted down to 53 bits and
    rounded. *)
Lemma float_of_int_large (p : positive) :
  2 ^ 53 <= Zpos p ->
  float_of_int (Zpos p)
  = finite_or_overflow
      (checked false (round_stage2 (shifted (Zpos p)) (Z.log2 (Zpos p) - 52))).
Proof.
  intros Hp. pose proof (log2_large _ Hp) as Hl.
  unfold float_of_int, binary_normalize, binary_round.
  rewrite digits2_pos_size, size_log2, fexp_normal by lia.
  unfold shl_align.
  destruct (Z.log2 (Zpos p) + 1 + 0 - 53 - 0) as [|k|k] eqn:E; try lia.
  rewrite binary_round_aux_stages, shr_fexp_normal by lia.
  cbn [shr_record_of_loc]. rewrite shr_nat by lia. cbn [fst snd].
  reflexivity.
Qed.

Lemma shr_1_exact_odd (z : Z) :
  0 < z -> shr_1 (exact_record (2 * z + 1)) = {| shr_m := z; shr_r := true; shr_s := false |}.
Proof. destruct z; try lia; reflexivity. Qed.

Lemma div_eucl_2 (a : Z) :
  exists q r, Z.div_eucl a 2 = (q, r) /\ a = 2 * q + r /\ (r = 0 \/ r = 1).
Proof.
  pose proof (Z.div_eucl_eq a 2 ltac:(lia)) as Hd.
  pose proof (Z.mod_pos_bound a 2 ltac:(lia)) as Hb.
  unfold Z.modulo in Hb.
  destruct (Z.div_eucl a 2) as [q r]. exists q, r. repeat split; lia.
Qed.

(** [n / 2] for such [n]: the same mantissa as [float(n)], the exponent one
    lower. *)
Lemma int_truediv_2_large (p : positive) :
  2 ^ 53 <= Zpos p ->
  int_truediv (Zpos p) 2
  = finite_or_overflow
      (checked false (round_stage2 (shifted (Zpos p)) (Z.log2 (Zpos p) - 53))).
Proof.
  intros Hp. pose proof (log2_large _ Hp) as Hl.
  unfold int_truediv.
  change (2 =? 0) with false. change (Zpos p =? 0) with false.
  cbn [exact_operand SFdiv xorb].
  unfold SFdiv_core_binary.
  rewrite (Zdigits2_log2 (Zpos p)) by lia.
  change (Zdigits2 2) with 2.
  rewrite fexp_normal by lia.
  f_equal. unfold shifted.
  destruct (Z.eq_dec (Z.log2 (Zpos p)) 53) as [E|E].
  - (* 54 bits: the dividend is doubled first, the quotient is exact *)
    replace (Z.min (Z.log2 (Zpos p) + 1 + 0 - (2 + 0) - 53) (0 - 0)) with (-1) by lia.
    change (0 - 0 - -1) with 1.
    rewrite Z.shiftl_mul_pow2 by lia.
    destruct (div_eucl_2 (Zpos p * 2 ^ 1)) as [q [r [-> [Hq Hr]]]].
    assert (r = 0) by lia. assert (q = Zpos p) by lia. subst q r.
    change (new_location 2 0) with loc_Exact.
    rewrite binary_round_aux_stages, shr_fexp_normal by lia.
    cbn [shr_record_of_loc]. rewrite shr_nat by lia. cbn [fst snd].
    do 2 f_equal. lia.
  - (* more bits: the last bit of the dividend is the round bit *)
    replace (Z.min (Z.log2 (Zpos p) + 1 + 0 - (2 + 0) - 53) (0 - 0)) with 0 by lia.
    change (0 - 0 - 0) with 0.
    destruct (div_eucl_2 (Zpos p)) as [q [r [-> [Hq Hr]]]].
    assert (Hqpos : 2 ^ 52 <= q) by lia.
    assert (Hlq : Z.log2 q = Z.log2 (Zpos p) - 1).
    { replace q with (Zpos p / 2) by (symmetry; apply (Z.div_unique _ 2 q r); lia).
      apply log2_half. lia. }
    rewrite binary_round_aux_stages, shr_fexp_normal by lia.
    rewrite shr_nat by lia. cbn [fst snd].
    replace (Z.to_nat (Z.log2 (Zpos p) - 52)) with (S (Z.to_nat (Z.log2 q - 52))) by lia.
    rewrite Nat.iter_succ_r.
    replace (shr_1 (exact_record (Zpos p))) with (shr_record_of_loc q (new_location 2 r)).
    + do 2 f_equal. lia.
    + rewrite Hq. destruct Hr; subst r.
      * rewrite Z.add_0_r, shr_1_exact_double by lia. reflexivity.
      * rewrite shr_1_exact_odd by lia. reflexivity.
Qed.

Lemma binary_round_aux_exact_checked (s : bool) (m : positive) (e k : Z) :
  Z.log2 (Zpos m) = 52 -> 0 <= k -> -1074 <= e + k ->
  binary_round_aux prec emax s (Zpos m * 2 ^ k) e loc_Exact
  = checked s (Zpos m, e + k).
Proof.
  intros Hm Hk He.
  assert (Hpos : 0 < Zpos m * 2 ^ k) by (apply Z.mul_pos_pos; [lia | now apply Z.pow_pos_nonneg]).
  rewrite binary_round_aux_stages, shr_fexp_normal by (rewrite ?Z.log2_mul_pow2; lia).
  rewrite Z.log2_mul_pow2, Hm by lia.
  replace (k + 52 - 52) with k by lia.
  cbn [shr_record_of_loc]. rewrite shr_exact by lia. cbn [fst snd].
  rewrite round_stage2_normal; cbn [shr_m loc_of_shr_record round_nearest_even].
  - assert (Hlt : Zpos m < 2 ^ 53) by (apply Z.log2_lt_pow2; lia).
    apply Z.ltb_lt in Hlt. rewrite Hlt. reflexivity.
  - split; [|apply Z.log2_lt_pow2; lia].
    rewrite <- Hm. apply Z.log2_spec. lia.
  - lia.
Qed.

Lemma shifted_m (n : Z) :
  2 ^ 53 <= n ->
  shr_m (shifted n) = n / 2 ^ (Z.log2 n - 52)
  /\ 2 ^ 52 <= n / 2 ^ (Z.log2 n - 52) < 2 ^ 53.
Proof.
  intros Hn. pose proof (log2_large _ Hn) as Hl.
  unfold shifted. rewrite iter_shr_1_m, Z2Nat.id by (cbn [shr_m]; lia).
  cbn [shr_m]. split; [reflexivity|].
  destruct (Z.log2_spec n ltac:(lia)) as [Hlo Hhi].
  assert (Hk : 0 < 2 ^ (Z.log2 n - 52)) by (apply Z.pow_pos_nonneg; lia).
  split.
  - apply Z.div_le_lower_bound; [exact Hk|].
    rewrite <- Z.pow_add_r by lia.
    replace (Z.log2 n - 52 + 52) with (Z.log2 n) by lia. exact Hlo.
  - apply Z.div_lt_upper_bound; [exact Hk|].
    rewrite <- Z.pow_add_r by lia.
    replace (Z.log2 n - 52 + 53) with (Z.succ (Z.log2 n)) by lia. exact Hhi.
Qed.

Lemma shifted_r (n : Z) :
  2 ^ 53 <= n -> shr_r (shifted n) = Z.odd (n / 2 ^ (Z.log2 n - 53)).
Proof.
  intros Hn. pose proof (log2_large _ Hn) as Hl.
  unfold shifted.
  replace (Z.to_nat (Z.log2 n - 52)) with (S (Z.to_nat (Z.log2 n - 53))) by lia.
  rewrite iter_shr_1_r, Z2Nat.id by (cbn [shr_m]; lia).
  reflexivity.
Qed.

Lemma float_range_factored : float_range = 2 ^ 970 * (2 ^ 54 - 1).
Proof. reflexivity. Qed.

(** At 1024 bits, the two bits below the 53-bit mantissa decide. *)
Lemma top_bits (n : Z) :
  0 <= n ->
  n / 2 ^ 971 = n / 2 ^ 970 / 2
  /\ (n < float_range <-> n / 2 ^ 970 < 2 ^ 54 - 1).
Proof.
  intros Hn. split.
  - rewrite Z.div_div by lia. reflexivity.
  - rewrite float_range_factored. split; intros H.
    + apply Z.div_lt_upper_bound; [lia | exact H].
    + destruct (Z.lt_ge_cases n (2 ^ 970 * (2 ^ 54 - 1))) as [Hlt|Hge]; [exact Hlt|].
      apply Z.div_le_lower_bound in Hge; lia.
Qed.

(** The float nearest to [n >= 2^53]: a 53-bit mantissa [M] and the exponent
    [log2 n - 52 + c], where [c] is the carry of the rounding; it is within
    range exactly below [float_range]. *)
Lemma rounded_large (n : Z) :
  2 ^ 53 <= n ->
  exists (M : positive) (c : Z),
    Z.log2 (Zpos M) = 52
    /\ 0 <= c <= 1
    /\ (forall e, -1074 <= e -> round_stage2 (shifted n) e = (Zpos M, e + c))
    /\ (Z.log2 n - 52 + c <= 971 <-> n < float_range).
Proof.
  intros Hn. pose proof (log2_large _ Hn) as Hl.
  destruct (shifted_m n Hn) as [Hm Hb]. rewrite <- Hm in Hb.
  pose proof (shifted_r n Hn) as Hr.
  pose proof (round_nearest_even_bounds (shr_m (shifted n)) (loc_of_shr_record (shifted n))) as Hrne.
  assert (Hrange : float_range = 2 ^ 1024 - 2 ^ 970) by reflexivity.
  assert (Htop : Z.log2 n = 1023 ->
                 round_nearest_even (shr_m (shifted n)) (loc_of_shr_record (shifted n)) < 2 ^ 53
                 <-> n < float_range).
  { intros E. destruct (top_bits n ltac:(lia)) as [Hhalf Hiff].
    rewrite E in Hm, Hr. change (1023 - 52) with 971 in Hm. change (1023 - 53) with 970 in Hr.
    rewrite Hhalf in Hm. rewrite Hiff.
    pose proof (Zmod_odd (n / 2 ^ 970)) as Hodd. rewrite <- Hr in Hodd.
    pose proof (Zmod_odd (shr_m (shifted n))) as Hodd0.
    clear Hhalf Hiff Hrange Hr.
    set (a := n / 2 ^ 970) in *. clearbody a.
    destruct (shr_r (shifted n)) eqn:Er; cbv iota in Hodd.
    - destruct (Z.odd (shr_m (shifted n))) eqn:Eo; cbv iota in Hodd0.
      + rewrite round_nearest_even_up by assumption. Z.div_mod_to_equations. lia.
      + Z.div_mod_to_equations. lia.
    - rewrite round_nearest_even_down by assumption. Z.div_mod_to_equations. lia. }
  assert (Hlt1024 : n < float_range -> Z.log2 n <= 1023).
  { intros H. enough (Z.log2 n < 1024) by lia. apply Z.log2_lt_pow2; lia. }
  assert (Hge1023 : float_range <= n -> 1023 <= Z.log2 n).
  { intros H. apply Z.log2_le_pow2; lia. }
  assert (Hlt1023 : Z.log2 n <= 1022 -> n < float_range).
  { intros H. enough (n < 2 ^ 1023) by lia. apply Z.log2_lt_pow2; lia. }
  destruct (Z.ltb_spec (round_nearest_even (shr_m (shifted n)) (loc_of_shr_record (shifted n))) (2 ^ 53))
    as [Hlt|Hge].
  - exists (Z.to_pos (round_nearest_even (shr_m (shifted n)) (loc_of_shr_record (shifted n)))), 0.
    rewrite Z2Pos.id by lia.
    split; [apply log2_52; lia|]. split; [lia|]. split.
    + intros e He. rewrite round_stage2_normal by (exact Hb || exact He).
      apply Z.ltb_lt in Hlt. rewrite Hlt. f_equal. lia.
    + split; intros H.
      * destruct (Z.eq_dec (Z.log2 n) 1023) as [E|E]; [now apply Htop | apply Hlt1023; lia].
      * apply Hlt1024 in H. lia.
  - exists (Z.to_pos (2 ^ 52)), 1.
    split; [reflexivity|]. split; [lia|]. split.
    + intros e He. rewrite round_stage2_normal by (exact Hb || exact He).
      apply Z.ltb_ge in Hge. rewrite Hge. reflexivity.
    + split; intros H.
      * apply Hlt1023. lia.
      * pose proof (Hlt1024 H).
        destruct (Z.eq_dec (Z.log2 n) 1023) as [E|E]; [|lia].
        apply Htop in H; [lia | exact E].
Qed.

(** On the integers of 54 bits or more that [float()] accepts, [(n/2)*2] is
    [float(n)] again, so the test of [is_even] succeeds there too. *)
Lemma is_even_large (n : Z) :
  2 ^ 53 <= n < float_range -> is_even n = Return true.
Proof.
  intros [Hn Hr]. pose proof (log2_large _ Hn) as Hl.
  destruct (rounded_large n Hn) as [M [c [HM [Hc [Hround Hiff]]]]].
  apply Hiff in Hr.
  destruct n as [|p|p]; try lia.
  unfold is_even, float_mul_int, int_sub_float.
  rewrite int_truediv_2_large, float_of_int_2, float_of_int_large by exact Hn.
  rewrite !Hround by lia.
  unfold checked. cbn [fst snd].
  replace (Z.log2 (Zpos p) - 53 + c <=? emax - prec) with true
    by (symmetry; apply Z.leb_le; unfold emax, prec; lia).
  replace (Z.log2 (Zpos p) - 52 + c <=? emax - prec) with true
    by (symmetry; apply Z.leb_le; unfold emax, prec; lia).
  cbn [finite_or_overflow bind]. rewrite float_mul_2 by lia.
  replace (Z.log2 (Zpos p) - 53 + c + 1) with (Z.log2 (Zpos p) - 52 + c) by lia.
  now rewrite float_sub_diag.
Qed.

(** From [float_range] on, [n/2] or [float(n)] is out of range. *)
Lemma is_even_overflow (n : Z) :
  float_range <= n -> is_even n = Raise OverflowError.
Proof.
  intros Hr.
  assert (Hn : 2 ^ 53 <= n) by (unfold float_range in Hr; lia).
  pose proof (log2_large _ Hn) as Hl.
  destruct (rounded_large n Hn) as [M [c [HM [Hc [Hround Hiff]]]]].
  assert (HK : 971 < Z.log2 n - 52 + c) by (destruct (Z.le_gt_cases (Z.log2 n - 52 + c) 971) as [H|H]; [apply Hiff in H|]; lia).
  destruct n as [|p|p]; try lia.
  unfold is_even, float_mul_int, int_sub_float.
  rewrite int_truediv_2_large, float_of_int_2, float_of_int_large by exact Hn.
  rewrite !Hround by lia.
  unfold checked. cbn [fst snd].
  replace (Z.log2 (Zpos p) - 52 + c <=? emax - prec) with false
    by (symmetry; apply Z.leb_gt; unfold emax, prec; lia).
  destruct (Z.log2 (Zpos p) - 53 + c <=? emax - prec); reflexivity.
Qed.

Lemma is_even_in_range (n : Z) :
  1 <= n < float_range -> is_even n = Return true.
Proof.
  intros Hn. destruct (Z.lt_ge_cases n (2 ^ 53)).
  - apply is_even_small. lia.
  - apply is_even_large. lia.
Qed.

End Binary64.

(** ** The loop of [collatz_length] *)

Section CollatzLength.

Lemma bind_Return_inv {A B : Type} (m : outcome A) (k : A -> outcome B) (b : B) :
  bind m k = Return b -> exists a, m = Return a /\ k a = Return b.
Proof. destruct m; simpl; intros H; try discriminate. now exists a. Qed.

Lemma collatz_loop_fuel_mono (fuel fuel' : nat) (n length : Z) (r : outcome Z) :
  collatz_loop fuel n length = r -> r <> OutOfFuel -> (fuel <= fuel')%nat ->
  collatz_loop fuel' n length = r.
Proof.
  revert fuel' n length; induction fuel as [|fuel IH]; intros fuel' n length Hr Hne Hle.
  - simpl in Hr. congruence.
  - destruct fuel' as [|fuel']; [lia|].
    cbn [collatz_loop] in *.
    destruct (negb (n =? 1)); [|exact Hr].
    destruct (is_even n) as [even| |]; cbn [bind] in *; try exact Hr.
    apply IH; [exact Hr | exact Hne | lia].
Qed.

Lemma collatz_loop_length_le (fuel : nat) (n length l : Z) :
  collatz_loop fuel n length = Return l -> length <= l.
Proof.
  revert n length; induction fuel as [|fuel IH]; intros n length H.
  - discriminate.
  - cbn [collatz_loop] in H.
    destruct (negb (n =? 1)).
    + apply bind_Return_inv in H. destruct H as [even [_ H]].
      apply IH in H. lia.
    + injection H as ->. lia.
Qed.

Lemma collatz_length_pos (fuel : nat) (n l : Z) :
  collatz_length fuel n = Return l -> 1 <= l.
Proof. apply collatz_loop_length_le. Qed.

Lemma collatz_length_deterministic (fuel fuel' : nat) (n l l' : Z) :
  collatz_length fuel n = Return l -> collatz_length fuel' n = Return l' -> l = l'.
Proof.
  unfold collatz_length. intros H H'.
  destruct (Nat.le_ge_cases fuel fuel') as [Hle|Hle].
  - apply (collatz_loop_fuel_mono _ fuel') in H; [congruence | discriminate | exact Hle].
  - apply (collatz_loop_fuel_mono _ fuel) in H'; [congruence | discriminate | exact Hle].
Qed.

Lemma log2_in_range (n : Z) : 1 <= n < float_range -> 0 <= Z.log2 n < 1024.
Proof.
  intros Hn. split; [apply Z.log2_nonneg|].
  apply Z.log2_lt_pow2; unfold float_range in Hn; lia.
Qed.

(** Since the parity test always succeeds, every step halves: the loop runs
    [log2 n] times. *)
Lemma collatz_loop_small (fuel : nat) (n length : Z) :
  1 <= n < float_range -> (Z.to_nat (Z.log2 n) < fuel)%nat ->
  collatz_loop fuel n length = Return (length + Z.log2 n).
Proof.
  revert n length; induction fuel as [|fuel IH]; intros n length Hn Hf; [lia|].
  cbn [collatz_loop].
  destruct (n =? 1) eqn:E; cbn [negb].
  - apply Z.eqb_eq in E. subst n. simpl. now rewrite Z.add_0_r.
  - apply Z.eqb_neq in E.
    rewrite is_even_in_range by exact Hn. cbn [bind].
    assert (Hh : 1 <= n / 2 < float_range).
    { split; [apply Z.div_le_lower_bound; lia | apply Z.div_lt_upper_bound; lia]. }
    pose proof (log2_half n ltac:(lia)) as Hl.
    pose proof (Z.log2_nonneg (n / 2)).
    rewrite IH by (try exact Hh; lia).
    f_equal. lia.
Qed.

Lemma collatz_length_small (fuel : nat) (n : Z) :
  1 <= n < float_range -> (1024 <= fuel)%nat ->
  collatz_length fuel n = Return (1 + Z.log2 n).
Proof.
  intros Hn Hf. apply collatz_loop_small; [exact Hn|].
  pose proof (log2_in_range n Hn). lia.
Qed.

(** Beyond the floats the first parity test raises. *)
Lemma collatz_loop_overflow (fuel : nat) (n length : Z) :
  float_range <= n -> collatz_loop (S fuel) n length = Raise OverflowError.
Proof.
  intros Hn. cbn [collatz_loop].
  replace (n =? 1) with false
    by (symmetry; apply Z.eqb_neq; unfold float_range in Hn; lia).
  cbn [negb]. now rewrite is_even_overflow.
Qed.

End CollatzLength.

(** ** The scan of [find_longest_collatz] *)

Section Scan.

Variable cfuel : nat.
Variable limit : Z.

Lemma scanned_step (i max_length number length : Z) :
  1 <= i -> scanned cfuel i max_length number ->
  collatz_length cfuel i = Return length ->
  let '(max_length', number') :=
    if length >? max_length then (length, i) else (max_length, number) in
  scanned cfuel (i + 1) max_length' number'.
Proof.
  intros Hi [Hall Hbest] Hlen.
  pose proof (collatz_length_pos _ _ _ Hlen) as Hpos.
  destruct (length >? max_length) eqn:E.
  - apply Z.gtb_lt in E. split.
    + intros j Hj. destruct (Z.eq_dec j i) as [->|Hne].
      * exists length. split; [exact Hlen | lia].
      * destruct (Hall j ltac:(lia)) as [l [Hl Hle]].
        exists l. split; [exact Hl | lia].
    + right. split; [lia|]. split; [exact Hlen|].
      intros j l Hj Hl. destruct (Hall j Hj) as [l' [Hl' Hle]].
      assert (l = l') by congruence. lia.
  - assert (Hle : length <= max_length)
      by (destruct (Z.gtb_spec length max_length); [discriminate | lia]).
    split.
    + intros j Hj. destruct (Z.eq_dec j i) as [->|Hne].
      * exists length. split; [exact Hlen | exact Hle].
      * apply Hall. lia.
    + right. destruct Hbest as [[_ [H0 _]]|[Hn [Hl Hfirst]]]; [lia|].
      split; [lia|]. split; assumption.
Qed.

(** [scanned] is an invariant of the loop, so it holds of the returned pair
    with [i = limit + 1]. *)
Lemma find_longest_loop_scanned (fuel : nat) (max_length number i : Z) (r : Z * Z) :
  1 <= i <= limit + 1 -> scanned cfuel i max_length number ->
  find_longest_loop fuel cfuel limit max_length number i = Return r ->
  scanned cfuel (limit + 1) (snd r) (fst r).
Proof.
  revert max_length number i; induction fuel as [|fuel IH];
    intros max_length number i Hi Hinv H; [discriminate|].
  cbn [find_longest_loop] in H.
  destruct (i <=? limit) eqn:E.
  - apply Z.leb_le in E.
    apply bind_Return_inv in H. destruct H as [length [Hlen H]].
    pose proof (scanned_step i max_length number length ltac:(lia) Hinv Hlen) as Hstep.
    destruct (if length >? max_length then (length, i) else (max_length, number))
      as [max_length' number'].
    apply IH in H; [exact H | lia | exact Hstep].
  - apply Z.leb_gt in E. injection H as <-. cbn [fst snd].
    replace (limit + 1) with i by lia. exact Hinv.
Qed.

Lemma scanned_start : scanned cfuel 1 0 1.
Proof. split; [intros j Hj; lia | left; auto]. Qed.

Lemma find_longest_loop_fuel_mono (fuel fuel' : nat) (max_length number i : Z) (r : Z * Z) :
  find_longest_loop fuel cfuel limit max_length number i = Return r ->
  (fuel <= fuel')%nat ->
  find_longest_loop fuel' cfuel limit max_length number i = Return r.
Proof.
  revert fuel' max_length number i; induction fuel as [|fuel IH];
    intros fuel' max_length number i H Hle; [discriminate|].
  destruct fuel' as [|fuel']; [lia|].
  cbn [find_longest_loop] in *.
  destruct (i <=? limit); [|exact H].
  destruct (collatz_length cfuel i) as [length| |]; cbn [bind] in *; try discriminate.
  destruct (if length >? max_length then (length, i) else (max_length, number))
    as [max_length' number'].
  apply IH; [exact H | lia].
Qed.

(** With enough fuel the scan returns when every length it asks for is
    returned. *)
Lemma find_longest_loop_returns (fuel : nat) (max_length number i : Z) :
  1 <= i -> limit < float_range -> (1024 <= cfuel)%nat ->
  (Z.to_nat (limit + 1 - i) < fuel)%nat ->
  exists r, find_longest_loop fuel cfuel limit max_length number i = Return r.
Proof.
  revert max_length number i; induction fuel as [|fuel IH];
    intros max_length number i Hi Hlim Hc Hf; [lia|].
  cbn [find_longest_loop].
  destruct (i <=? limit) eqn:E.
  - apply Z.leb_le in E.
    rewrite collatz_length_small by (try exact Hc; lia). cbn [bind].
    destruct (if 1 + Z.log2 i >? max_length then (1 + Z.log2 i, i) else (max_length, number))
      as [max_length' number'].
    apply IH; try assumption; lia.
  - eexists; reflexivity.
Qed.

End Scan.


(** ** [find_longest_collatz] as a whole *)

Section FindLongest.


Lemma find_longest_loop_cfuel_mono (fuel cfuel cfuel' : nat)
      (limit max_length number i : Z) (r : Z * Z) :
  find_longest_loop fuel cfuel limit max_length number i = Return r ->
  (cfuel <= cfuel')%nat ->
  find_longest_loop fuel cfuel' limit max_length number i = Return r.
Proof.
  revert max_length number i; induction fuel as [|fuel IH];
    intros max_length number i H Hle; [discriminate|].
  cbn [find_longest_loop] in *.
  destruct (i <=? limit); [|exact H].
  apply bind_Return_inv in H. destruct H as [length [Hlen H]].
  unfold collatz_length in *.
  rewrite (collatz_loop_fuel_mono cfuel cfuel' i 1 (Return length) Hlen)
    by (discriminate || exact Hle).
  cbn [bind].
  destruct (if length >? max_length then (length, i) else (max_length, number))
    as [max_length' number'].
  now apply IH.
Qed.

Lemma find_longest_collatz_fuel_mono (fuel fuel' : nat) (limit : Z) (r : Z * Z) :
  find_longest_collatz fuel limit = Return r -> (fuel <= fuel')%nat ->
  find_longest_collatz fuel' limit = Return r.
Proof.
  unfold find_longest_collatz. intros H Hle.
  apply (find_longest_loop_cfuel_mono _ fuel); [|exact Hle].
  now apply (find_longest_loop_fuel_mono _ _ fuel).
Qed.

(** What the returned pair is, in terms of the lengths [collatz_length]
    returns with the same fuel. *)
Lemma find_longest_collatz_sound (fuel : nat) (limit number max_length : Z) :
  1 <= limit ->
  find_longest_collatz fuel limit = Return (number, max_length) ->
  1 <= number <= limit
  /\ collatz_length fuel number = Return max_length
  /\ (forall i, 1 <= i <= limit ->
        exists l, collatz_length fuel i = Return l /\ l <= max_length)
  /\ (forall i l, 1 <= i < number ->
        collatz_length fuel i = Return l -> l < max_length).
Proof.
  intros Hlimit H. unfold find_longest_collatz in H.
  apply find_longest_loop_scanned in H; [|lia|apply scanned_start].
  cbn [fst snd] in H. destruct H as [Hall [[Hcontra _]|[Hn [Hl Hfirst]]]]; [lia|].
  split; [lia|]. split; [exact Hl|]. split.
  - intros i Hi. apply Hall. lia.
  - exact Hfirst.
Qed.

Lemma find_longest_collatz_total (fuel : nat) (limit : Z) :
  limit < float_range -> (Z.to_nat limit + 1024 <= fuel)%nat ->
  exists r, find_longest_collatz fuel limit = Return r.
Proof.
  intros Hlimit Hf. unfold find_longest_collatz.
  apply find_longest_loop_returns; lia.
Qed.

(** The scan with the parity test that always succeeds: the longest run of
    halvings starts at the largest power of two. *)
Lemma find_longest_collatz_small (fuel : nat) (limit : Z) :
  1 <= limit < float_range -> (Z.to_nat limit + 1024 <= fuel)%nat ->
  find_longest_collatz fuel limit = Return (2 ^ Z.log2 limit, 1 + Z.log2 limit).
Proof.
  intros Hlimit Hf.
  destruct (find_longest_collatz_total fuel limit) as [[number max_length] Hr]; try lia.
  rewrite Hr. f_equal.
  destruct (find_longest_collatz_sound fuel limit number max_length ltac:(lia) Hr)
    as [Hn [Hl [Hall Hfirst]]].
  rewrite collatz_length_small in Hl by lia.
  assert (Hl' : 1 + Z.log2 number = max_length) by congruence.
  destruct (Z.log2_spec limit ltac:(lia)) as [Hlo Hhi].
  pose proof (Z.log2_nonneg limit) as Hk.
  assert (Hp : 1 <= 2 ^ Z.log2 limit) by (apply (Z.pow_le_mono_r 2 0); lia).
  destruct (Hall (2 ^ Z.log2 limit) ltac:(lia)) as [l [Hlp Hle]].
  rewrite collatz_length_small, Z.log2_pow2 in Hlp by lia.
  assert (Hlp' : 1 + Z.log2 limit = l) by congruence.
  pose proof (Z.log2_le_mono number limit ltac:(lia)) as Hmono.
  assert (Hml : max_length = 1 + Z.log2 limit) by lia.
  assert (Hge : 2 ^ Z.log2 limit <= number).
  { destruct (Z.log2_spec number ltac:(lia)) as [Hlo' _].
    replace (Z.log2 limit) with (Z.log2 number) by lia. exact Hlo'. }
  assert (Hnum : number = 2 ^ Z.log2 limit).
  { destruct (Z.eq_dec number (2 ^ Z.log2 limit)) as [->|Hne]; [reflexivity|].
    assert (Hlt : 1 + Z.log2 (2 ^ Z.log2 limit) < max_length).
    { apply (Hfirst (2 ^ Z.log2 limit)); [lia|]. apply collatz_length_small; lia. }
    rewrite Z.log2_pow2 in Hlt by lia. lia. }
  congruence.
Qed.

(** From [float_range] on, the scan reaches an integer whose parity test
    raises. *)
Lemma find_longest_loop_overflow (fuel cfuel : nat) (limit max_length number i : Z) :
  1 <= i <= float_range -> float_range <= limit -> (1024 <= cfuel)%nat ->
  (Z.to_nat (float_range - i) < fuel)%nat ->
  find_longest_loop fuel cfuel limit max_length number i = Raise OverflowError.
Proof.
  revert max_length number i; induction fuel as [|fuel IH];
    intros max_length number i Hi Hlimit Hc Hf; [lia|].
  cbn [find_longest_loop].
  replace (i <=? limit) with true by (symmetry; apply Z.leb_le; lia).
  destruct (Z.eq_dec i float_range) as [->|Hne].
  - destruct cfuel as [|cfuel]; [lia|].
    unfold collatz_length. now rewrite collatz_loop_overflow by lia.
  - rewrite collatz_length_small by (try exact Hc; lia). cbn [bind].
    destruct (if 1 + Z.log2 i >? max_length then (1 + Z.log2 i, i) else (max_length, number))
      as [max_length' number'].
    apply IH; try assumption; lia.
Qed.

Lemma find_longest_collatz_overflow (fuel : nat) (limit : Z) :
  float_range <= limit -> (Z.to_nat float_range + 1024 <= fuel)%nat ->
  find_longest_collatz fuel limit = Raise OverflowError.
Proof.
  intros Hlimit Hf. unfold find_longest_collatz.
  assert (1 <= float_range) by (unfold float_range; lia).
  apply find_longest_loop_overflow; lia.
Qed.

Lemma find_longest_collatz_no_pair (fuel : nat) (limit : Z) (r : Z * Z) :
  float_range <= limit -> find_longest_collatz fuel limit <> Return r.
Proof.
  intros Hlimit Hr. destruct r as [number max_length].
  assert (H1 : 1 <= float_range) by (unfold float_range; lia).
  destruct (find_longest_collatz_sound fuel limit number max_length ltac:(lia) Hr)
    as [_ [_ [Hall _]]].
  destruct (Hall float_range ltac:(lia)) as [l [Hl _]].
  destruct fuel as [|fuel]; [discriminate|].
  unfold collatz_length in Hl. rewrite collatz_loop_overflow in Hl by lia.
  discriminate.
Qed.

End FindLongest.

(** ** [fibo] *)

Section Fibo.

Lemma reference_fibo_step (k : nat) :
  Reference.fibo (S (S k)) = Reference.fibo (S k) + Reference.fibo k.
Proof. reflexivity. Qed.

(** [fibo] computes the reference sequence, given fuel for [n] nested calls. *)
Lemma fibo_correct (fuel : nat) (n : Z) :
  0 <= n -> (Z.to_nat n < fuel)%nat ->
  fibo fuel n = Return (Reference.fibo (Z.to_nat n)).
Proof.
  revert n; induction fuel as [|fuel IH]; intros n Hn Hf; [lia|].
  cbn [fibo].
  destruct (n <=? 1) eqn:E.
  - apply Z.leb_le in E.
    assert (Hc : n = 0 \/ n = 1) by lia.
    destruct Hc; subst n; reflexivity.
  - apply Z.leb_gt in E.
    rewrite !IH by lia. cbn [bind].
    replace (Z.to_nat n) with (S (S (Z.to_nat (n - 2)))) by lia.
    replace (Z.to_nat (n - 1)) with (S (Z.to_nat (n - 2))) by lia.
    rewrite reference_fibo_step. f_equal. lia.
Qed.

Lemma fibo_base (fuel : nat) (n : Z) : n <= 1 -> fibo (S fuel) n = Return n.
Proof.
  intros Hn. cbn [fibo].
  replace (n <=? 1) with true by (symmetry; apply Z.leb_le; exact Hn).
  reflexivity.
Qed.

Lemma print_each_correct (fuel : nat) (l : list Z) :
  Forall (fun i => 0 <= i /\ (Z.to_nat i < fuel)%nat) l ->
  print_each fuel l = Return (map (fun i => Reference.fibo (Z.to_nat i)) l).
Proof.
  induction 1 as [|i l [Hi Hf] _ IH]; [reflexivity|].
  cbn [print_each map]. rewrite fibo_correct, IH by assumption. reflexivity.
Qed.

Lemma range_bounds (k : nat) :
  Forall (fun i => 0 <= i /\ (Z.to_nat i < k)%nat) (range k).
Proof.
  unfold range. apply Forall_forall. intros i Hi.
  apply in_map_iff in Hi. destruct Hi as [j [<- Hj]].
  apply in_seq in Hj. lia.
Qed.

End Fibo.

(** ** Non-positive integers *)

Section Signs.

Lemma checked_opp (r : Z * Z) : checked true r = SFopp (checked false r).
Proof.
  unfold checked. destruct (fst r); try reflexivity.
  destruct (snd r <=? emax - prec); reflexivity.
Qed.

Lemma binary_round_aux_opp (m e : Z) (l : location) :
  binary_round_aux prec emax true m e l
  = SFopp (binary_round_aux prec emax false m e l).
Proof. rewrite !binary_round_aux_stages. apply checked_opp. Qed.

Lemma finite_or_overflow_opp (x : float) :
  finite_or_overflow (SFopp x) = negate (finite_or_overflow x).
Proof. destruct x; reflexivity. Qed.

Lemma float_of_int_neg (p : positive) :
  float_of_int (Zneg p) = negate (float_of_int (Zpos p)).
Proof.
  unfold float_of_int, binary_normalize, binary_round.
  rewrite <- finite_or_overflow_opp. f_equal.
  destruct (shl_align p 0 _) as [mz ez]. apply binary_round_aux_opp.
Qed.

Lemma int_truediv_2_neg (p : positive) :
  int_truediv (Zneg p) 2 = negate (int_truediv (Zpos p) 2).
Proof.
  unfold int_truediv.
  change (2 =? 0) with false. change (Zneg p =? 0) with false.
  change (Zpos p =? 0) with false. cbv iota.
  rewrite <- finite_or_overflow_opp. f_equal.
  cbn [exact_operand SFdiv xorb].
  destruct (SFdiv_core_binary prec emax (Zpos p) 0 2 0) as [[mz ez] lz].
  apply binary_round_aux_opp.
Qed.

Lemma float_mul_2_signed (s : bool) (m : positive) (e : Z) :
  Z.log2 (Zpos m) = 52 -> -1074 <= e + 1 <= 971 ->
  float_mul (S754_finite s m e) (S754_finite false 4503599627370496 (-51))
  = S754_finite s m (e + 1).
Proof.
  intros Hm He. unfold float_mul, SFmul.
  rewrite Pos2Z.inj_mul. change (Zpos 4503599627370496) with (2 ^ 52).
  rewrite xorb_false_r, binary_round_aux_exact by lia.
  f_equal. lia.
Qed.

(** In range, [n/2] and [float(n)] have the same mantissa, one exponent
    apart: halving loses nothing. *)
Lemma halving_in_range (n : Z) :
  1 <= n < float_range ->
  exists (M : positive) (K : Z),
    Z.log2 (Zpos M) = 52 /\ -1074 <= K - 1 /\ K <= 971
    /\ int_truediv n 2 = Return (S754_finite false M (K - 1))
    /\ float_of_int n = Return (S754_finite false M K).
Proof.
  intros Hn. destruct (Z.lt_ge_cases n (2 ^ 53)) as [Hs|Hl].
  - destruct n as [|p|p]; try lia.
    assert (Hp : Z.log2 (Zpos p) <= 52)
      by (enough (Z.log2 (Zpos p) < 53) by lia; apply Z.log2_lt_pow2; lia).
    destruct (mantissa_spec p Hp) as [_ HlM].
    pose proof (Z.log2_nonneg (Zpos p)) as H0.
    exists (mantissa p), (Z.log2 (Zpos p) - 52).
    rewrite int_truediv_2_small, float_of_int_small by exact Hp.
    repeat split; try lia. do 2 f_equal. lia.
  - pose proof (log2_large _ Hl) as Hlog.
    destruct (rounded_large n Hl) as [M [c [HM [Hc [Hround Hiff]]]]].
    destruct Hn as [_ Hr]. apply Hiff in Hr.
    destruct n as [|p|p]; try lia.
    exists M, (Z.log2 (Zpos p) - 52 + c).
    rewrite int_truediv_2_large, float_of_int_large by exact Hl.
    rewrite !Hround by lia. unfold checked. cbn [fst snd].
    replace (Z.log2 (Zpos p) - 53 + c <=? emax - prec) with true
      by (symmetry; apply Z.leb_le; unfold emax, prec; lia).
    replace (Z.log2 (Zpos p) - 52 + c <=? emax - prec) with true
      by (symmetry; apply Z.leb_le; unfold emax, prec; lia).
    cbn [finite_or_overflow].
    repeat split; try lia. do 2 f_equal. lia.
Qed.

Lemma float_of_int_overflow (n : Z) :
  float_range <= n -> float_of_int n = Raise OverflowError.
Proof.
  intros Hr.
  assert (Hn : 2 ^ 53 <= n) by (unfold float_range in Hr; lia).
  pose proof (log2_large _ Hn) as Hl.
  destruct (rounded_large n Hn) as [M [c [HM [Hc [Hround Hiff]]]]].
  assert (HK : 971 < Z.log2 n - 52 + c)
    by (destruct (Z.le_gt_cases (Z.log2 n - 52 + c) 971) as [H|H]; [apply Hiff in H|]; lia).
  destruct n as [|p|p]; try lia.
  rewrite float_of_int_large, Hround by (exact Hn || lia).
  unfold checked. cbn [fst snd].
  replace (Z.log2 (Zpos p) - 52 + c <=? emax - prec) with false
    by (symmetry; apply Z.leb_gt; unfold emax, prec; lia).
  reflexivity.
Qed.

Lemma int_truediv_2_outcomes (n : Z) :
  int_truediv n 2 = Raise OverflowError \/ exists x, int_truediv n 2 = Return x.
Proof.
  unfold int_truediv. change (2 =? 0) with false. cbv iota.
  destruct (n =? 0); [right; eexists; reflexivity|].
  destruct (SFdiv prec emax (exact_operand n) (exact_operand 2)) as [s|s| |s m e];
    cbn [finite_or_overflow]; (left; reflexivity) || (right; eexists; reflexivity).
Qed.

Lemma is_even_negative_in_range (n : Z) :
  - float_range < n < 0 -> is_even n = Return true.
Proof.
  intros Hn. destruct n as [|p|p]; try lia.
  destruct (halving_in_range (Zpos p)) as [M [K [HM [HK1 [HK [Hq Hf]]]]]]; [lia|].
  unfold is_even, float_mul_int, int_sub_float.
  rewrite int_truediv_2_neg, float_of_int_neg, Hq, Hf, float_of_int_2.
  cbn [negate SFopp negb bind].
  rewrite float_mul_2_signed by lia.
  replace (K - 1 + 1) with K by lia.
  now rewrite float_sub_diag.
Qed.

Lemma is_even_negative_overflow (n : Z) :
  n <= - float_range -> is_even n = Raise OverflowError.
Proof.
  intros Hn.
  assert (H1 : 1 <= float_range) by (unfold float_range; lia).
  destruct n as [|p|p]; try lia.
  pose proof (float_of_int_overflow (Zpos p) ltac:(lia)) as Hf.
  unfold is_even, float_mul_int, int_sub_float.
  rewrite int_truediv_2_neg, float_of_int_neg, Hf, float_of_int_2.
  destruct (int_truediv_2_outcomes (Zpos p)) as [-> | [x ->]]; reflexivity.
Qed.

Lemma is_even_whole_range (n : Z) :
  - float_range < n < float_range -> is_even n = Return true.
Proof.
  intros Hn. destruct (Z.lt_trichotomy n 0) as [H|[->|H]].
  - apply is_even_negative_in_range. lia.
  - reflexivity.
  - apply is_even_in_range. lia.
Qed.

End Signs.

(** ** Edges of [collatz_length] *)

Section CollatzEdges.

(** On [0] and below the loop halves forever: [n // 2] floors, so it stays
    non-positive and never becomes 1. *)
Lemma collatz_loop_nonpositive (fuel : nat) (n length : Z) :
  - float_range < n <= 0 -> collatz_loop fuel n length = OutOfFuel.
Proof.
  revert n length; induction fuel as [|fuel IH]; intros n length Hn; [reflexivity|].
  cbn [collatz_loop].
  replace (n =? 1) with false by (symmetry; apply Z.eqb_neq; lia).
  cbn [negb]. rewrite is_even_whole_range by lia. cbn [bind].
  apply IH. Z.div_mod_to_equations. lia.
Qed.

Lemma collatz_loop_negative_overflow (fuel : nat) (n length : Z) :
  n <= - float_range -> collatz_loop (S fuel) n length = Raise OverflowError.
Proof.
  intros Hn. cbn [collatz_loop].
  replace (n =? 1) with false
    by (symmetry; apply Z.eqb_neq; unfold float_range in Hn; lia).
  cbn [negb]. now rewrite is_even_negative_overflow.
Qed.

Lemma collatz_loop_first_test (fuel : nat) (n length l : Z) :
  collatz_loop fuel n length = Return l -> (l = length <-> n = 1).
Proof.
  destruct fuel as [|fuel]; [discriminate|].
  cbn [collatz_loop]. destruct (n =? 1) eqn:E; cbn [negb].
  - apply Z.eqb_eq in E. intros H. injection H as ->. tauto.
  - apply Z.eqb_neq in E. intros H.
    apply bind_Return_inv in H. destruct H as [even [_ H]].
    apply collatz_loop_length_le in H. split; [lia | tauto].
Qed.

End CollatzEdges.

(** ** Depth and cost of [fibo] *)

Section FiboDepth.

Lemma fibo_never_raises (fuel : nat) (n : Z) (e : exn) : fibo fuel n <> Raise e.
Proof.
  revert n; induction fuel as [|fuel IH]; intros n; [discriminate|].
  cbn [fibo]. destruct (n <=? 1); [discriminate|].
  pose proof (IH (n - 2)) as H2. pose proof (IH (n - 1)) as H1.
  destruct (fibo fuel (n - 2)); cbn [bind]; try congruence.
  destruct (fibo fuel (n - 1)); cbn [bind]; congruence.
Qed.

(** Fuel for [n] nested calls is enough for [fibo(n)], [n >= 1]. *)
Lemma fibo_correct_tight (fuel : nat) (n : Z) :
  1 <= n -> (Z.to_nat n <= fuel)%nat ->
  fibo fuel n = Return (Reference.fibo (Z.to_nat n)).
Proof.
  revert n; induction fuel as [|fuel IH]; intros n Hn Hf; [lia|].
  destruct (Z.eq_dec n 1) as [->|H1]; [reflexivity|].
  destruct (Z.eq_dec n 2) as [->|H2].
  - destruct fuel as [|fuel]; [simpl in Hf; lia | reflexivity].
  - cbn [fibo].
    replace (n <=? 1) with false by (symmetry; apply Z.leb_gt; lia).
    rewrite !IH by lia. cbn [bind].
    replace (Z.to_nat n) with (S (S (Z.to_nat (n - 2)))) by lia.
    replace (Z.to_nat (n - 1)) with (S (Z.to_nat (n - 2))) by lia.
    rewrite reference_fibo_step. f_equal. lia.
Qed.

(** Less is not: the chain [fibo(n)], [fibo(n-1)], ..., [fibo(1)] is nested. *)
Lemma fibo_out_of_fuel (fuel : nat) (n : Z) :
  (fuel < Z.to_nat n)%nat -> fibo fuel n = OutOfFuel.
Proof.
  revert n; induction fuel as [|fuel IH]; intros n Hf; [reflexivity|].
  cbn [fibo].
  replace (n <=? 1) with false by (symmetry; apply Z.leb_gt; lia).
  pose proof (fibo_never_raises fuel (n - 2)) as Hr.
  destruct (fibo fuel (n - 2)) as [a|e|]; cbn [bind]; [|congruence|reflexivity].
  rewrite IH by lia. reflexivity.
Qed.

(** Whatever the fuel, a returned value is the reference one. *)
Lemma fibo_sound (fuel : nat) (n v : Z) :
  0 <= n -> fibo fuel n = Return v -> v = Reference.fibo (Z.to_nat n).
Proof.
  intros Hn H.
  destruct (Nat.lt_ge_cases fuel (Z.to_nat n)) as [Hlt|Hge].
  - rewrite fibo_out_of_fuel in H by exact Hlt. discriminate.
  - destruct (Z.eq_dec n 0) as [->|H0].
    + destruct fuel as [|fuel]; [discriminate|].
      rewrite fibo_base in H by lia. injection H as <-. reflexivity.
    + rewrite fibo_correct_tight in H by lia. congruence.
Qed.

Lemma reference_fibo_nonneg (k : nat) :
  0 <= Reference.fibo k /\ 0 <= Reference.fibo (S k).
Proof.
  induction k as [|k [IH0 IH1]]; [cbn; lia|].
  split; [exact IH1|]. rewrite reference_fibo_step. lia.
Qed.

Lemma reference_fibo_mono (j k : nat) :
  (j <= k)%nat -> Reference.fibo j <= Reference.fibo k.
Proof.
  induction 1 as [|k Hle IH]; [lia|].
  etransitivity; [exact IH|].
  destruct k as [|k]; [cbn; lia|].
  rewrite reference_fibo_step.
  pose proof (reference_fibo_nonneg k). lia.
Qed.

End FiboDepth.

Section FiboCalls.

(** Forgetting the counter gives [fibo] back. *)
Lemma fibo_counting_value (fuel : nat) (n calls : Z) :
  bind (fibo_counting fuel n calls) (fun r => Return (fst r)) = fibo fuel n.
Proof.
  revert n calls; induction fuel as [|fuel IH]; intros n calls; [reflexivity|].
  cbn [fibo_counting fibo]. destruct (n <=? 1); [reflexivity|].
  rewrite <- (IH (n - 2) (calls + 1)).
  destruct (fibo_counting fuel (n - 2) (calls + 1)) as [[a c2]| |]; cbn [bind fst snd];
    try reflexivity.
  rewrite <- (IH (n - 1) c2).
  destruct (fibo_counting fuel (n - 1) c2) as [[b c1]| |]; reflexivity.
Qed.

Lemma fibo_counting_calls (fuel : nat) (n calls : Z) :
  0 <= n -> (Z.to_nat n < fuel)%nat ->
  fibo_counting fuel n calls
  = Return (Reference.fibo (Z.to_nat n),
            calls + 2 * Reference.fibo (S (Z.to_nat n)) - 1).
Proof.
  revert n calls; induction fuel as [|fuel IH]; intros n calls Hn Hf; [lia|].
  cbn [fibo_counting].
  destruct (n <=? 1) eqn:E.
  - apply Z.leb_le in E.
    assert (Hc : n = 0 \/ n = 1) by lia.
    destruct Hc; subst n;
      [change (Z.to_nat 0) with 0%nat | change (Z.to_nat 1) with 1%nat];
      cbn [Reference.fibo]; do 2 f_equal; lia.
  - apply Z.leb_gt in E.
    rewrite IH by lia. cbn [bind fst snd].
    rewrite IH by lia. cbn [bind fst snd].
    replace (Z.to_nat n) with (S (S (Z.to_nat (n - 2)))) by lia.
    replace (Z.to_nat (n - 1)) with (S (Z.to_nat (n - 2))) by lia.
    rewrite !reference_fibo_step. f_equal. f_equal; lia.
Qed.

End FiboCalls.

(** ** The loop of test.py *)

Section Printing.

Lemma print_each_range (k fuel : nat) :
  (k <= fuel)%nat ->
  print_each fuel (range k) = Return (map Reference.fibo (seq 0 k)).
Proof.
  intros Hk. rewrite print_each_correct.
  - unfold range. rewrite map_map. f_equal. apply map_ext.
    intros j. now rewrite Nat2Z.id.
  - eapply Forall_impl; [|apply (range_bounds k)].
    cbv beta. intros i Hi. lia.
Qed.

End Printing.

(** ** Extending the scan *)

Section ScanComposition.

(** A returned pair is the one of [find_longest_collatz_small], and the
    limit is in range. *)
Lemma find_longest_collatz_returns_inv (limit : Z) (r : Z * Z) :
  1 <= limit -> find_longest_collatz_returns limit r ->
  limit < float_range /\ r = (2 ^ Z.log2 limit, 1 + Z.log2 limit).
Proof.
  intros Hlimit [fuel Hr].
  destruct (Z.lt_ge_cases limit float_range) as [Hlt|Hge].
  - split; [exact Hlt|].
    apply (find_longest_collatz_fuel_mono _ (fuel + (Z.to_nat limit + 1024))) in Hr; [|lia].
    rewrite find_longest_collatz_small in Hr by lia. congruence.
  - now apply find_longest_collatz_no_pair in Hr.
Qed.

(** Scanning one integer further is one more update of the record. *)
Lemma find_longest_loop_extend (fuel cfuel : nat) (limit max_length number i l : Z)
      (r : Z * Z) :
  i <= limit + 1 ->
  collatz_length cfuel (limit + 1) = Return l ->
  find_longest_loop fuel cfuel limit max_length number i = Return r ->
  find_longest_loop (S fuel) cfuel (limit + 1) max_length number i
  = Return (if l >? snd r then (limit + 1, l) else r).
Proof.
  revert max_length number i; induction fuel as [|fuel IH];
    intros max_length number i Hi Hl H; [discriminate|].
  cbn [find_longest_loop] in H.
  destruct (i <=? limit) eqn:E.
  - apply Z.leb_le in E.
    apply bind_Return_inv in H. destruct H as [length [Hlen H]].
    change (find_longest_loop (S (S fuel)) cfuel (limit + 1) max_length number i)
      with (if i <=? limit + 1 then
              length <- collatz_length cfuel i ;;
              let '(max_length, number) :=
                if length >? max_length then (length, i) else (max_length, number) in
              find_longest_loop (S fuel) cfuel (limit + 1) max_length number (i + 1)
            else Return (number, max_length)).
    replace (i <=? limit + 1) with true by (symmetry; apply Z.leb_le; lia).
    rewrite Hlen. cbn [bind].
    destruct (if length >? max_length then (length, i) else (max_length, number))
      as [max_length' number'].
    apply IH; [lia | exact Hl | exact H].
  - apply Z.leb_gt in E. injection H as <-. cbn [snd].
    assert (i = limit + 1) by lia. subst i.
    cbn [find_longest_loop].
    rewrite Z.leb_refl, Hl. cbn [bind].
    replace (limit + 1 + 1 <=? limit + 1) with false by (symmetry; apply Z.leb_gt; lia).
    destruct (l >? max_length); destruct fuel; reflexivity.
Qed.

End ScanComposition.

Section ScanSteps.

Lemma find_longest_collatz_extend_returns (limit l : Z) (r : Z * Z) :
  0 <= limit ->
  find_longest_collatz_returns limit r ->
  collatz_length_returns (limit + 1) l ->
  find_longest_collatz_returns (limit + 1)
    (if l >? snd r then (limit + 1, l) else r).
Proof.
  intros Hlimit [fuel Hr] [cfuel Hl].
  set (F := (fuel + cfuel)%nat).
  apply (find_longest_collatz_fuel_mono _ F) in Hr; [|lia].
  apply (collatz_loop_fuel_mono _ F) in Hl; [|discriminate|lia].
  exists (S F). unfold find_longest_collatz in *.
  apply (find_longest_loop_cfuel_mono _ F); [|lia].
  apply find_longest_loop_extend; [lia | exact Hl | exact Hr].
Qed.

Lemma find_longest_collatz_mono (l1 l2 : Z) (r1 r2 : Z * Z) :
  1 <= l1 <= l2 ->
  find_longest_collatz_returns l1 r1 -> find_longest_collatz_returns l2 r2 ->
  fst r1 <= fst r2 /\ snd r1 <= snd r2.
Proof.
  intros Hl H1 H2.
  apply find_longest_collatz_returns_inv in H1; [|lia].
  apply find_longest_collatz_returns_inv in H2; [|lia].
  destruct H1 as [_ ->]. destruct H2 as [_ ->]. cbn [fst snd].
  pose proof (Z.log2_le_mono l1 l2 ltac:(lia)) as Hm.
  pose proof (Z.log2_nonneg l1).
  split; [apply Z.pow_le_mono_r; lia | lia].
Qed.

End ScanSteps.

(** ** The properties of the specification *)

(** C1 (the code departs from the claim).  [is_even] is meant to be the
    parity test [n % 2 == 0], but it divides with [/], which does not
    truncate: on the odd number 3 it answers [True] where the modulus test
    answers [False]. *)
Theorem is_even_accepts_odd :
  is_even 3 = Return true /\ Reference.is_even 3 = false.
Proof. split; reflexivity. Qed.

(** C2 (the code departs from the claim).  [collatz_length(3)] is 2, for any
    fuel that lets its loop finish: 3 is taken for even and halved to 1.  The
    reference sequence 3, 10, 5, 16, 8, 4, 2, 1 has length 8. *)
Theorem collatz_length_of_3 :
  (forall extra : nat, collatz_length (2 + extra) 3 = Return 2)
  /\ Reference.sequence_length 8 3 = Return 8.
Proof. split; [intros extra|]; reflexivity. Qed.

(** C3 (the code departs from the claim).  The script's run,
    [find_longest_collatz(10000)], returns (8192, 14) for any fuel that lets
    it finish, not the pair (6171, 262) that the scan with the reference
    length returns. *)
Theorem driver_result :
  (forall extra : nat,
      Loops.driver (Z.to_nat (limit + 1024) + extra) = Return (8192, 14))
  /\ Reference.find_longest (Z.to_nat (limit + 1)) limit = Return (6171, 262).
Proof.
  split.
  - intros extra. unfold Loops.driver.
    rewrite find_longest_collatz_small by (unfold limit, float_range; lia).
    reflexivity.
  - vm_compute. reflexivity.
Qed.

(** C4.  On every [n >= 0], with fuel for [n] nested calls, [fibo(n)] returns
    the [n]-th Fibonacci number of the reference definition; and the script
    prints 0, 1, 1, 2, 3, 5, 8, 13, 21, 34, 55, 89, 144, 233, 377, 610, 987,
    1597, 2584, 4181, in that order. *)
Theorem fibo_is_fibonacci :
  (forall (n : Z) (fuel : nat), 0 <= n -> (Z.to_nat n < fuel)%nat ->
     fibo fuel n = Return (Reference.fibo (Z.to_nat n)))
  /\ (forall extra : nat,
        Test.driver (20 + extra)
        = Return [0; 1; 1; 2; 3; 5; 8; 13; 21; 34; 55; 89; 144; 233; 377; 610;
                  987; 1597; 2584; 4181]).
Proof.
  split.
  - intros n fuel. apply fibo_correct.
  - intros extra. unfold Test.driver.
    rewrite print_each_correct; [reflexivity|].
    eapply Forall_impl; [|apply (range_bounds 20)].
    cbv beta. intros i Hi. lia.
Qed.

Lemma fibo_is_fibonacci_witness :
  fibo 20 19 = Return (Reference.fibo (Z.to_nat 19)).
Proof. apply (proj1 fibo_is_fibonacci 19 20%nat); [lia | vm_compute; lia]. Defined.

(** C5, as amended.  On every negative [n], [fibo(n)] returns [n] at once:
    the guard [n <= 1] holds, so a single call is enough and nothing
    recurses. *)
Theorem fibo_negative_returns (n : Z) (fuel : nat) :
  n < 0 -> fibo (S fuel) n = Return n.
Proof. intros Hn. apply fibo_base. lia. Qed.

Lemma fibo_negative_returns_witness : fibo 1 (-5) = Return (-5).
Proof. apply (fibo_negative_returns (-5) 0). lia. Defined.

(** C5 as stated fails: [fibo(-1)] returns -1 with fuel for one call. *)
Lemma fibo_negative_terminates : -1 < 0 /\ fibo 1 (-1) = Return (-1).
Proof. split; reflexivity. Qed.

(** C6.  For [limit >= 1].  The scan is the source's loop: past [limit] it
    returns the record as it stands, and up to [limit] it replaces the record
    exactly when the length of [i] is strictly greater.  So, of a returned
    pair: when two integers [i < j] of [1..limit] both have the length [L]
    that is the maximum over [1..limit], the returned length is [L], the
    returned number has length [L], is at most [i] and is not [j]; and it is
    [i] itself when nothing below [i] has length [L].  The scan does return
    for every [limit] below [float_range]. *)
Theorem find_longest_collatz_tie_break (limit : Z) :
  1 <= limit ->
  (forall (fuel cfuel : nat) (max_length number i : Z),
      find_longest_loop (S fuel) cfuel limit max_length number i
      = if i <=? limit
        then
          length <- collatz_length cfuel i ;;
          if length >? max_length
          then find_longest_loop fuel cfuel limit length i (i + 1)
          else find_longest_loop fuel cfuel limit max_length number (i + 1)
        else Return (number, max_length))
  /\ (forall number max_length : Z,
        find_longest_collatz_returns limit (number, max_length) ->
        forall i j L : Z, 1 <= i -> i < j -> j <= limit ->
          collatz_length_returns i L ->
          collatz_length_returns j L ->
          (forall k l : Z, 1 <= k <= limit -> collatz_length_returns k l -> l <= L) ->
          max_length = L
          /\ collatz_length_returns number L
          /\ number <= i /\ number <> j
          /\ ((forall k : Z, 1 <= k < i -> ~ collatz_length_returns k L) ->
              number = i))
  /\ (limit < float_range ->
      exists number max_length : Z,
        find_longest_collatz_returns limit (number, max_length)).
Proof.
  intros Hlimit. split; [|split].
  - intros fuel cfuel max_length number i.
    cbn [find_longest_loop].
    destruct (i <=? limit); [|reflexivity].
    destruct (collatz_length cfuel i) as [length| |]; cbn [bind]; try reflexivity.
    now destruct (length >? max_length).
  - intros number max_length [fuel Hr] i j L Hi Hij Hj [fi Hli] [fj Hlj] Hmax.
    destruct (find_longest_collatz_sound fuel limit number max_length Hlimit Hr)
      as [Hn [Hl [Hall Hfirst]]].
    assert (Hup : max_length <= L)
      by (apply (Hmax number); [exact Hn | now exists fuel]).
    destruct (Hall i ltac:(lia)) as [l [Hl' Hle]].
    pose proof (collatz_length_deterministic _ _ _ _ _ Hl' Hli) as ->.
    assert (Heq : max_length = L) by lia. subst max_length.
    assert (Hni : number <= i).
    { destruct (Z.le_gt_cases number i) as [H|Hgt]; [exact H|].
      pose proof (Hfirst i L ltac:(lia) Hl'). lia. }
    split; [reflexivity|]. split; [now exists fuel|].
    split; [exact Hni|]. split; [lia|].
    intros Hleast.
    destruct (Z.eq_dec number i) as [He|Hne]; [exact He|].
    exfalso. apply (Hleast number); [lia | now exists fuel].
  - intros Hsmall.
    destruct (find_longest_collatz_total (Z.to_nat limit + 1024) limit Hsmall (Nat.le_refl _))
      as [[number max_length] Hr].
    exists number, max_length, (Z.to_nat limit + 1024)%nat. exact Hr.
Qed.

(** At [limit = 5] the lengths are 1, 2, 2, 3, 3: 4 and 5 tie at the maximum
    3, and 4 is returned. *)
Lemma find_longest_collatz_tie_break_witness :
  find_longest_collatz_returns 5 (4, 3)
  /\ collatz_length_returns 4 3
  /\ collatz_length_returns 5 3
  /\ (forall k l : Z, 1 <= k <= 5 -> collatz_length_returns k l -> l <= 3)
  /\ 3 = 3 /\ collatz_length_returns 4 3 /\ 4 <= 4 /\ 4 <> 5
  /\ ((forall k : Z, 1 <= k < 4 -> ~ collatz_length_returns k 3) -> 4 = 4).
Proof.
  assert (Hr : find_longest_collatz_returns 5 (4, 3)) by (exists 6%nat; reflexivity).
  assert (H4 : collatz_length_returns 4 3) by (exists 3%nat; reflexivity).
  assert (H5 : collatz_length_returns 5 3) by (exists 3%nat; reflexivity).
  assert (Hmax : forall k l : Z,
             1 <= k <= 5 -> collatz_length_returns k l -> l <= 3).
  { intros k l Hk [fuel Hl].
    assert (Hc : k = 1 \/ k = 2 \/ k = 3 \/ k = 4 \/ k = 5) by lia.
    destruct Hc as [->|[->|[->|[->| ->]]]].
    - assert (l = 1) by (apply (collatz_length_deterministic fuel 3 1); [exact Hl | reflexivity]).
      lia.
    - assert (l = 2) by (apply (collatz_length_deterministic fuel 3 2); [exact Hl | reflexivity]).
      lia.
    - assert (l = 2) by (apply (collatz_length_deterministic fuel 3 3); [exact Hl | reflexivity]).
      lia.
    - assert (l = 3) by (apply (collatz_length_deterministic fuel 3 4); [exact Hl | reflexivity]).
      lia.
    - assert (l = 3) by (apply (collatz_length_deterministic fuel 3 5); [exact Hl | reflexivity]).
      lia. }
  split; [exact Hr|]. split; [exact H4|]. split; [exact H5|]. split; [exact Hmax|].
  destruct (find_longest_collatz_tie_break 5 ltac:(lia)) as [_ [H _]].
  apply (H 4 3 Hr 4 5 3); try lia; assumption.
Defined.



(** C8.  For every [limit < 1], [find_longest_collatz(limit)] returns (1, 0)
    after a single test of the loop condition: the body does not run, and
    the input is not rejected. *)
Theorem find_longest_collatz_degenerate (limit : Z) (fuel : nat) :
  limit < 1 -> find_longest_collatz (S fuel) limit = Return (1, 0).
Proof.
  intros Hlimit. unfold find_longest_collatz. cbn [find_longest_loop].
  replace (1 <=? limit) with false by (symmetry; apply Z.leb_gt; exact Hlimit).
  reflexivity.
Qed.

Lemma find_longest_collatz_degenerate_witness :
  find_longest_collatz 1 0 = Return (1, 0).
Proof. apply (find_longest_collatz_degenerate 0 0). lia. Defined.

(** C9.  [find_longest_collatz(1)] returns (1, 1), for any fuel that allows
    the two tests of the loop condition. *)
Theorem find_longest_collatz_1 (fuel : nat) :
  find_longest_collatz (S (S fuel)) 1 = Return (1, 1).
Proof. reflexivity. Qed.

(** C10.  For [limit >= 1], a pair (number, max_length) returned by
    [find_longest_collatz(limit)] satisfies: [1 <= number <= limit];
    [collatz_length(number)] returns [max_length]; every [i] of [1..limit]
    has a length, at most [max_length]; and [number] is the least [i] of
    [1..limit] whose length is [max_length].  The scan does return for every
    [limit] below [float_range]. *)
Theorem find_longest_collatz_consistent (limit : Z) :
  1 <= limit ->
  (forall number max_length : Z,
      find_longest_collatz_returns limit (number, max_length) ->
      1 <= number <= limit
      /\ collatz_length_returns number max_length
      /\ (forall i : Z, 1 <= i <= limit ->
            exists l : Z, collatz_length_returns i l /\ l <= max_length)
      /\ (forall i : Z, 1 <= i <= limit ->
            collatz_length_returns i max_length -> number <= i))
  /\ (limit < float_range ->
      exists number max_length : Z,
        find_longest_collatz_returns limit (number, max_length)).
Proof.
  intros Hlimit. split.
  - intros number max_length [fuel Hr].
    destruct (find_longest_collatz_sound fuel limit number max_length Hlimit Hr)
      as [Hn [Hl [Hall Hfirst]]].
    split; [exact Hn|]. split; [now exists fuel|]. split.
    + intros i Hi. destruct (Hall i Hi) as [l [Hl' Hle]].
      exists l. split; [now exists fuel | exact Hle].
    + intros i Hi [fi Hli].
      destruct (Z.le_gt_cases number i) as [Hle|Hgt]; [exact Hle|].
      destruct (Hall i Hi) as [l [Hl' _]].
      pose proof (collatz_length_deterministic _ _ _ _ _ Hl' Hli) as ->.
      pose proof (Hfirst i max_length ltac:(lia) Hl'). lia.
  - intros Hsmall.
    destruct (find_longest_collatz_total (Z.to_nat limit + 1024) limit Hsmall (Nat.le_refl _))
      as [[number max_length] Hr].
    exists number, max_length, (Z.to_nat limit + 1024)%nat. exact Hr.
Qed.

Lemma find_longest_collatz_consistent_witness :
  1 <= 2 <= 3
  /\ collatz_length_returns 2 2
  /\ (forall i : Z, 1 <= i <= 3 ->
        exists l : Z, collatz_length_returns i l /\ l <= 2)
  /\ (forall i : Z, 1 <= i <= 3 -> collatz_length_returns i 2 -> 2 <= i).
Proof.
  apply (proj1 (find_longest_collatz_consistent 3 ltac:(lia)) 2 2).
  exists 4%nat. reflexivity.
Defined.

(** ** Further properties of the code *)

(** X1.  [is_even(n)] returns [True] on every integer from 1 up to the
    largest one that rounds to a finite float, odd or even. *)
Theorem is_even_always_true (n : Z) :
  1 <= n < float_range -> is_even n = Return true.
Proof. apply is_even_in_range. Qed.

Lemma is_even_always_true_witness : is_even 7 = Return true.
Proof. apply (is_even_always_true 7). unfold float_range. lia. Defined.

(** X2.  From [float_range] on, [is_even(n)] raises [OverflowError]. *)
Theorem is_even_raises (n : Z) :
  float_range <= n -> is_even n = Raise OverflowError.
Proof. apply is_even_overflow. Qed.

Lemma is_even_raises_witness : is_even float_range = Raise OverflowError.
Proof. apply (is_even_raises float_range). apply Z.le_refl. Defined.

(** X3.  On that range [collatz_length(n)] is the number of bits of [n]:
    1 + floor(log2 n). *)
Theorem collatz_length_is_bit_length (n : Z) (fuel : nat) :
  1 <= n < float_range -> (1024 <= fuel)%nat ->
  collatz_length fuel n = Return (1 + Z.log2 n).
Proof. intros Hn Hf. now apply collatz_length_small. Qed.

Lemma collatz_length_is_bit_length_witness :
  collatz_length (1024 + 0) 27 = Return (1 + Z.log2 27).
Proof.
  apply (collatz_length_is_bit_length 27 (1024 + 0)); [unfold float_range; lia | lia].
Defined.

(** X4.  For [1 <= limit < float_range], [find_longest_collatz(limit)]
    returns the largest power of two up to [limit] and its number of bits. *)
Theorem find_longest_collatz_power_of_two (limit : Z) (fuel : nat) :
  1 <= limit < float_range -> (Z.to_nat limit + 1024 <= fuel)%nat ->
  find_longest_collatz fuel limit = Return (2 ^ Z.log2 limit, 1 + Z.log2 limit).
Proof. intros Hlimit Hf. now apply find_longest_collatz_small. Qed.

Lemma find_longest_collatz_power_of_two_witness :
  find_longest_collatz (Z.to_nat 100 + 1024) 100
  = Return (2 ^ Z.log2 100, 1 + Z.log2 100).
Proof.
  apply (find_longest_collatz_power_of_two 100 (Z.to_nat 100 + 1024));
    [unfold float_range; lia | apply Nat.le_refl].
Defined.

(** X5.  For [limit >= float_range], [find_longest_collatz(limit)] returns
    no pair, whatever the fuel; with fuel to reach [float_range] it raises
    [OverflowError]. *)
Theorem find_longest_collatz_raises (limit : Z) :
  float_range <= limit ->
  (forall (fuel : nat) (r : Z * Z), find_longest_collatz fuel limit <> Return r)
  /\ (forall fuel : nat, (Z.to_nat float_range + 1024 <= fuel)%nat ->
        find_longest_collatz fuel limit = Raise OverflowError).
Proof.
  intros Hlimit. split.
  - intros fuel r. now apply find_longest_collatz_no_pair.
  - intros fuel Hf. now apply find_longest_collatz_overflow.
Qed.

Lemma find_longest_collatz_raises_witness :
  find_longest_collatz (Z.to_nat float_range + 1024) float_range
  = Raise OverflowError.
Proof.
  apply (proj2 (find_longest_collatz_raises float_range (Z.le_refl _))).
  apply Nat.le_refl.
Defined.

(** X6.  [is_even(n)] returns [True] on 0 and on every negative integer
    that rounds to a finite float, as it does on the positive ones. *)
Theorem is_even_true_on_nonpositive (n : Z) :
  - float_range < n <= 0 -> is_even n = Return true.
Proof.
  intros Hn. apply is_even_whole_range.
  assert (1 <= float_range) by (unfold float_range; lia). lia.
Qed.

Lemma is_even_true_on_nonpositive_witness : is_even (-3) = Return true.
Proof. apply (is_even_true_on_nonpositive (-3)). unfold float_range. lia. Defined.

(** X7.  From [- float_range] down, [is_even(n)] raises [OverflowError]. *)
Theorem is_even_raises_below (n : Z) :
  n <= - float_range -> is_even n = Raise OverflowError.
Proof. apply is_even_negative_overflow. Qed.

Lemma is_even_raises_below_witness :
  is_even (- float_range) = Raise OverflowError.
Proof. apply (is_even_raises_below (- float_range)). apply Z.le_refl. Defined.

(** X8.  On 0 and on the negative integers above [- float_range],
    [collatz_length(n)] never returns: its loop is still running after any
    number of iterations, since [n // 2] stays non-positive. *)
Theorem collatz_length_loops_forever (n : Z) (fuel : nat) :
  - float_range < n <= 0 -> collatz_length fuel n = OutOfFuel.
Proof. intros Hn. now apply collatz_loop_nonpositive. Qed.

Lemma collatz_length_loops_forever_witness : collatz_length 50 0 = OutOfFuel.
Proof. apply (collatz_length_loops_forever 0 50). unfold float_range. lia. Defined.

(** X9.  From [float_range] up and from [- float_range] down,
    [collatz_length(n)] raises [OverflowError] in its first iteration. *)
Theorem collatz_length_raises (n : Z) (fuel : nat) :
  float_range <= n \/ n <= - float_range ->
  collatz_length (S fuel) n = Raise OverflowError.
Proof.
  intros [Hn|Hn]; unfold collatz_length.
  - now apply collatz_loop_overflow.
  - now apply collatz_loop_negative_overflow.
Qed.

Lemma collatz_length_raises_witness :
  collatz_length 1 float_range = Raise OverflowError.
Proof. apply (collatz_length_raises float_range 0). left. apply Z.le_refl. Defined.

(** X10.  A length that [collatz_length(n)] returns is at least 1, and it is
    1 only for [n = 1]. *)
Theorem collatz_length_one_only_at_1 (fuel : nat) (n l : Z) :
  collatz_length fuel n = Return l -> 1 <= l /\ (l = 1 <-> n = 1).
Proof.
  intros H. split; [now apply (collatz_length_pos fuel n)|].
  now apply (collatz_loop_first_test fuel).
Qed.

Lemma collatz_length_one_only_at_1_witness :
  collatz_length 5 8 = Return 4 /\ 1 <= 4 /\ (4 = 1 <-> 8 = 1).
Proof.
  split; [reflexivity|].
  apply (collatz_length_one_only_at_1 5 8 4). reflexivity.
Defined.

(** X11.  For [n >= 1], [fibo(n)] needs [n] nested calls: with fuel for that
    many it returns the [n]-th Fibonacci number, with less it is still
    recursing. *)
Theorem fibo_depth (n : Z) (fuel : nat) :
  1 <= n ->
  fibo fuel n
  = if (Z.to_nat n <=? fuel)%nat
    then Return (Reference.fibo (Z.to_nat n)) else OutOfFuel.
Proof.
  intros Hn. destruct (Nat.leb_spec (Z.to_nat n) fuel) as [Hle|Hlt].
  - now apply fibo_correct_tight.
  - now apply fibo_out_of_fuel.
Qed.

Lemma fibo_depth_witness :
  fibo 9 10
  = if (Z.to_nat 10 <=? 9)%nat
    then Return (Reference.fibo (Z.to_nat 10)) else OutOfFuel.
Proof. apply (fibo_depth 10 9). lia. Defined.

(** X12.  For [n >= 0], [fibo(n)] makes [2 * fibo(n + 1) - 1] calls of
    [fibo], its own included: nothing is remembered from one call to the
    next.  The counter does not change the value. *)
Theorem fibo_call_count (n calls : Z) (fuel : nat) :
  0 <= n -> (Z.to_nat n < fuel)%nat ->
  fibo_counting fuel n calls
  = Return (Reference.fibo (Z.to_nat n),
            calls + 2 * Reference.fibo (S (Z.to_nat n)) - 1)
  /\ bind (fibo_counting fuel n calls) (fun r => Return (fst r)) = fibo fuel n.
Proof.
  intros Hn Hf. split; [now apply fibo_counting_calls | apply fibo_counting_value].
Qed.

Lemma fibo_call_count_witness :
  fibo_counting 20 19 0
  = Return (Reference.fibo (Z.to_nat 19),
            0 + 2 * Reference.fibo (S (Z.to_nat 19)) - 1)
  /\ bind (fibo_counting 20 19 0) (fun r => Return (fst r)) = fibo 20 19.
Proof. apply (fibo_call_count 19 0 20); [lia | vm_compute; lia]. Defined.

(** X13.  On [n >= 0] the values of [fibo] are non-negative and never
    decrease: for [0 <= m <= n], [0 <= fibo(m) <= fibo(n)]. *)
Theorem fibo_monotone (m n a b : Z) (fuel fuel' : nat) :
  0 <= m <= n -> fibo fuel m = Return a -> fibo fuel' n = Return b ->
  0 <= a <= b.
Proof.
  intros Hmn Ha Hb.
  apply fibo_sound in Ha; [|lia]. apply fibo_sound in Hb; [|lia]. subst a b.
  split; [apply reference_fibo_nonneg | apply reference_fibo_mono; lia].
Qed.

Lemma fibo_monotone_witness :
  fibo 4 3 = Return 2 /\ fibo 6 5 = Return 5 /\ 0 <= 2 <= 5.
Proof.
  split; [reflexivity|]. split; [reflexivity|].
  apply (fibo_monotone 3 5 2 5 4 6); [lia | reflexivity | reflexivity].
Defined.

(** X14.  The loop [for i in range(k): print(fibo(i))] prints the first [k]
    Fibonacci numbers, in order, whatever [k]; fuel [k] is enough. *)
Theorem print_each_over_range (k fuel : nat) :
  (k <= fuel)%nat ->
  print_each fuel (range k) = Return (map Reference.fibo (seq 0 k)).
Proof. apply print_each_range. Qed.

Lemma print_each_over_range_witness :
  print_each 5 (range 5) = Return (map Reference.fibo (seq 0 5)).
Proof. apply (print_each_over_range 5 5). apply Nat.le_refl. Defined.

(** X15.  Scanning one integer further is one more update: if
    [find_longest_collatz(limit)] returns [r], [limit >= 0], and
    [collatz_length(limit + 1)] returns [l], then
    [find_longest_collatz(limit + 1)] returns [(limit + 1, l)] when [l]
    exceeds the length in [r], and [r] otherwise. *)
Theorem find_longest_collatz_extend (limit l : Z) (r : Z * Z) :
  0 <= limit ->
  find_longest_collatz_returns limit r ->
  collatz_length_returns (limit + 1) l ->
  find_longest_collatz_returns (limit + 1)
    (if l >? snd r then (limit + 1, l) else r).
Proof. apply find_longest_collatz_extend_returns. Qed.

Lemma find_longest_collatz_extend_witness :
  find_longest_collatz_returns (3 + 1) (if 3 >? snd (2, 2) then (3 + 1, 3) else (2, 2)).
Proof.
  apply (find_longest_collatz_extend 3 3 (2, 2)).
  - lia.
  - exists 4%nat. reflexivity.
  - exists 3%nat. reflexivity.
Defined.

(** X16.  Raising the limit never lowers the result: for
    [1 <= l1 <= l2], the number and the length returned for [l1] are at most
    those returned for [l2]. *)
Theorem find_longest_collatz_monotone (l1 l2 n1 m1 n2 m2 : Z) :
  1 <= l1 <= l2 ->
  find_longest_collatz_returns l1 (n1, m1) ->
  find_longest_collatz_returns l2 (n2, m2) ->
  n1 <= n2 /\ m1 <= m2.
Proof. intros Hl H1 H2. exact (find_longest_collatz_mono l1 l2 _ _ Hl H1 H2). Qed.

Lemma find_longest_collatz_monotone_witness :
  find_longest_collatz_returns 3 (2, 2)
  /\ find_longest_collatz_returns 5 (4, 3)
  /\ 2 <= 4 /\ 2 <= 3.
Proof.
  assert (H3 : find_longest_collatz_returns 3 (2, 2)) by (exists 4%nat; reflexivity).
  assert (H5 : find_longest_collatz_returns 5 (4, 3)) by (exists 6%nat; reflexivity).
  split; [exact H3|]. split; [exact H5|].
  apply (find_longest_collatz_monotone 3 5 2 2 4 3); [lia | exact H3 | exact H5].
Defined.

(** X17.  comps/loops.py prints one line, whatever the elapsed time reads:
    the limit 10000, the number 8192 and the length 14, in the f-string's
    wording. *)
Theorem loops_script_output (extra : nat) (elapsed : string) :
  Output.loops_script (Z.to_nat (limit + 1024) + extra) elapsed
  = Return
      [("Longest Collatz sequence under 10000: 8192 (length: 14) in "
        ++ elapsed ++ " sec")%string].
Proof.
  unfold Output.loops_script.
  rewrite find_longest_collatz_small by (unfold limit, float_range; lia).
  reflexivity.
Qed.

(** X18.  test.py prints 22 lines: the twenty values of [fibo(0)] to
    [fibo(19)] in order, then [loop took], then the elapsed time. *)
Theorem test_script_output (extra : nat) (elapsed : string) :
  Output.test_script (20 + extra) elapsed
  = Return
      ["0"; "1"; "1"; "2"; "3"; "5"; "8"; "13"; "21"; "34"; "55"; "89"; "144";
       "233"; "377"; "610"; "987"; "1597"; "2584"; "4181"; "loop took";
       elapsed]%string.
Proof.
  unfold Output.test_script.
  rewrite print_each_range by lia.
  reflexivity.
Qed.
